(** * napping: a shallow embedding of [Session.Send] and the [Response] accessors

    The development follows the Go sources of [Session.Send] and of the
    [Response] accessors; the line numbers quoted are those of the source
    file that holds [Send].  Go maps are stdpp [gmap]s, byte slices
    are lists of [Byte.byte], pointers that may be nil are [option]s, and the
    mutable objects [Send] writes to (the [*Session], the [*Request], the
    process log, the network, the caller's decode targets) are threaded
    through an explicit state. *)

From Stdlib Require Import ZArith Strings.Ascii Strings.String Strings.Byte.
From stdpp Require Import base option list strings gmap fin_maps sorting.

Local Open Scope string_scope.
Local Open Scope list_scope.
Local Open Scope Z_scope.

(** ** Go library types used by the package *)

(** [url.Values] and [http.Header] are both [map[string][]string]. *)
Abbreviation url_Values := (gmap string (list string)).
Abbreviation http_Header := (gmap string (list string)).

(** [url.Userinfo]. *)
Record url_Userinfo := {
  username : string;
  password : string;
  passwordSet : bool
}.

(** [url.URL], with the fields [Send] reads or writes. *)
Record url_URL := {
  Scheme : string;
  User : option url_Userinfo;
  Host : string;
  Path : string;
  RawQuery : string;
  Fragment : string
}.

Definition set_RawQuery (q : string) (u : url_URL) : url_URL :=
  {| Scheme := Scheme u; User := User u; Host := Host u; Path := Path u;
     RawQuery := q; Fragment := Fragment u |}.

(** ** Canonical header keys ([net/textproto]) *)

Module textproto.

Definition isLower (c : ascii) : bool := (("a" <=? c) && (c <=? "z"))%char.
Definition isUpper (c : ascii) : bool := (("A" <=? c) && (c <=? "Z"))%char.
Definition isDigit (c : ascii) : bool := (("0" <=? c) && (c <=? "9"))%char.

(** The token characters of RFC 7230, as in [validHeaderFieldByte]. *)
Definition validHeaderFieldByte (c : ascii) : bool :=
  isLower c || isUpper c || isDigit c
  || bool_decide (c ∈ list_ascii_of_string "!#$%&'*+-.^_`|~").

Definition toLower : nat := 32.

(** The loop of [canonicalMIMEHeaderKey]: upper case at the start and
    after each dash, lower case elsewhere. *)
Fixpoint canonLoop (upper : bool) (a : string) : string :=
  match a with
  | EmptyString => EmptyString
  | String c a' =>
      let c' :=
        if upper && isLower c then ascii_of_nat (nat_of_ascii c - toLower)%nat
        else if negb upper && isUpper c then ascii_of_nat (nat_of_ascii c + toLower)%nat
        else c in
      String c' (canonLoop (Ascii.eqb c' "-") a')
  end.

(** [CanonicalMIMEHeaderKey]: a key holding a byte that is not a token
    character is returned unchanged. *)
Definition CanonicalMIMEHeaderKey (s : string) : string :=
  if forallb validHeaderFieldByte (list_ascii_of_string s)
  then canonLoop true s else s.

End textproto.

(** [http.Header.Get], [Set] and [Add]. *)
Definition Header_Get (h : http_Header) (key : string) : string :=
  match h !! textproto.CanonicalMIMEHeaderKey key with
  | Some (v :: _) => v
  | _ => EmptyString
  end.

Definition Header_Set (h : http_Header) (key value : string) : http_Header :=
  <[textproto.CanonicalMIMEHeaderKey key := [value]]> h.

Definition Header_Add (h : http_Header) (key value : string) : http_Header :=
  let k := textproto.CanonicalMIMEHeaderKey key in
  <[k := default [] (h !! k) ++ [value]]> h.

(** ** External collaborators

    The carriers of the Go values the package only passes around. *)
Class GoTypes := {
  (** a dynamic value behind [interface{}] *)
  GoValue : Type;
  (** a non-nil [error] *)
  error : Type;
  (** a [*http.Transport] *)
  http_Transport : Type;
  (** whatever the network and the servers behind it remember *)
  NetState : Type
}.

Section Types.
Context `{T : GoTypes}.

(** The source of a request body ([io.Reader]): a [bytes.Buffer] made by
    [Send], or a stream supplied by the caller. *)
Inductive BodySource :=
| FromBuffer (bydata : list Byte.byte)
| FromReader (rd : GoValue).

(** [http.Request], as built by [http.NewRequest] and completed by [Send]. *)
Record http_Request := {
  req_Method : string;
  req_URL : string;
  req_Body : option BodySource;
  req_Header : http_Header
}.

Definition set_req_Header (h : http_Header) (req : http_Request) : http_Request :=
  {| req_Method := req_Method req; req_URL := req_URL req;
     req_Body := req_Body req; req_Header := h |}.

(** [http.Response]: [Body] is what reading the body stream to its end
    yields, [BodyErr] the read error, if any. *)
Record http_Response := {
  StatusCode : Z;
  resp_Header : http_Header;
  Body : list Byte.byte;
  BodyErr : option error
}.

(** [ioutil.ReadAll(resp.Body)]. *)
Definition ioutil_ReadAll (resp : http_Response) : list Byte.byte * option error :=
  (Body resp, BodyErr resp).

(** A [*http.Client]: the address of the instance and its [Transport]
    field (nil for the default transport). *)
Record http_Client := {
  client_addr : nat;
  client_Transport : option http_Transport
}.

(** The dynamic type of a non-nil [Request.Payload], as [Send] classifies
    it: first by [io.Reader], then by [reflect.Kind], then by the type
    assertions of the [String]/[Slice] case. *)
Inductive PayloadValue :=
| PReader (rd : GoValue)              (* implements io.Reader *)
| PMap (v : GoValue)                  (* reflect.Map *)
| PStruct (v : GoValue)               (* reflect.Struct *)
| PString (s : string)                (* string *)
| PNamedString (v : GoValue)          (* reflect.String, but not the type string *)
| PBytes (b : list Byte.byte)         (* []byte *)
| PArray (v : GoValue)                (* []interface{} *)
| PSlice (v : GoValue)                (* any other reflect.Slice *)
| POther (v : GoValue).               (* any other kind *)

(** A non-nil decode target handed to [json.Unmarshal]: a pointer into the
    caller's memory, or a value that is not a pointer. *)
Inductive Target :=
| TPtr (l : nat)
| TNonPtr (v : GoValue).

(** ** The package's own types ([request.go], [session.go]) *)

Record Request := {
  Url : string;
  Method : string;
  Params : option url_Values;
  Payload : option PayloadValue;
  NotProcessBody : bool;
  (** Modelled from the spec: the [Result] and [Error] fields that [Send]
     and the constructors in [session.go] use are not declared in the
     shipped [request.go]; section 3 describes them as the untyped
     destinations for successful-response and error-response decoding. *)
  Result : option Target;
  Error : option Target;
  Userinfo : option url_Userinfo;
  Header : option http_Header;
  Transport : option http_Transport;
  timestamp : Z;
  status : Z;
  response : option http_Response;
  body : list Byte.byte
}.

(** [type Response Request]. *)
Definition Response : Type := Request.

Record Session := {
  Client : option http_Client;
  s_Userinfo : option url_Userinfo;
  s_Header : option http_Header;
  s_Params : option url_Values
}.

Definition set_Method (x : string) (r : Request) : Request :=
  {| Url := Url r; Method := x; Params := Params r; Payload := Payload r;
     NotProcessBody := NotProcessBody r; Result := Result r; Error := Error r;
     Userinfo := Userinfo r; Header := Header r; Transport := Transport r;
     timestamp := timestamp r; status := status r; response := response r;
     body := body r |}.

Definition set_Params (x : option url_Values) (r : Request) : Request :=
  {| Url := Url r; Method := Method r; Params := x; Payload := Payload r;
     NotProcessBody := NotProcessBody r; Result := Result r; Error := Error r;
     Userinfo := Userinfo r; Header := Header r; Transport := Transport r;
     timestamp := timestamp r; status := status r; response := response r;
     body := body r |}.

Definition set_Payload (x : option PayloadValue) (r : Request) : Request :=
  {| Url := Url r; Method := Method r; Params := Params r; Payload := x;
     NotProcessBody := NotProcessBody r; Result := Result r; Error := Error r;
     Userinfo := Userinfo r; Header := Header r; Transport := Transport r;
     timestamp := timestamp r; status := status r; response := response r;
     body := body r |}.

Definition set_Transport (x : option http_Transport) (r : Request) : Request :=
  {| Url := Url r; Method := Method r; Params := Params r; Payload := Payload r;
     NotProcessBody := NotProcessBody r; Result := Result r; Error := Error r;
     Userinfo := Userinfo r; Header := Header r; Transport := x;
     timestamp := timestamp r; status := status r; response := response r;
     body := body r |}.

Definition set_timestamp (x : Z) (r : Request) : Request :=
  {| Url := Url r; Method := Method r; Params := Params r; Payload := Payload r;
     NotProcessBody := NotProcessBody r; Result := Result r; Error := Error r;
     Userinfo := Userinfo r; Header := Header r; Transport := Transport r;
     timestamp := x; status := status r; response := response r;
     body := body r |}.

Definition set_status (x : Z) (r : Request) : Request :=
  {| Url := Url r; Method := Method r; Params := Params r; Payload := Payload r;
     NotProcessBody := NotProcessBody r; Result := Result r; Error := Error r;
     Userinfo := Userinfo r; Header := Header r; Transport := Transport r;
     timestamp := timestamp r; status := x; response := response r;
     body := body r |}.

Definition set_response (x : option http_Response) (r : Request) : Request :=
  {| Url := Url r; Method := Method r; Params := Params r; Payload := Payload r;
     NotProcessBody := NotProcessBody r; Result := Result r; Error := Error r;
     Userinfo := Userinfo r; Header := Header r; Transport := Transport r;
     timestamp := timestamp r; status := status r; response := x;
     body := body r |}.

Definition set_body (x : list Byte.byte) (r : Request) : Request :=
  {| Url := Url r; Method := Method r; Params := Params r; Payload := Payload r;
     NotProcessBody := NotProcessBody r; Result := Result r; Error := Error r;
     Userinfo := Userinfo r; Header := Header r; Transport := Transport r;
     timestamp := timestamp r; status := status r; response := response r;
     body := x |}.

Definition set_Client (x : option http_Client) (s : Session) : Session :=
  {| Client := x; s_Userinfo := s_Userinfo s; s_Header := s_Header s;
     s_Params := s_Params s |}.

(** ** The world [Send] acts on *)

(** An argument of [log.Println]. *)
Inductive LogArg :=
| LStr (s : string)
| LErr (e : error).

(** What [Send] does to the outside, in order: a line on the process log,
    a call of [client.Do] with what it returned, the closing of a response
    body. *)
Inductive Event :=
| EvLog (args : list LogArg)
| EvDo (c : http_Client) (req : http_Request) (res : http_Response + error)
| EvClose (resp : http_Response).

Record World := {
  events : list Event;          (* oldest first *)
  heap : gmap nat GoValue;      (* the caller's decode targets *)
  net : NetState;
  clock : Z;                    (* time.Now() *)
  nextClient : nat              (* address of the next http.Client allocated *)
}.

Definition add_event (e : Event) (w : World) : World :=
  {| events := events w ++ [e]; heap := heap w; net := net w;
     clock := clock w; nextClient := nextClient w |}.

Definition set_heap (h : gmap nat GoValue) (w : World) : World :=
  {| events := events w; heap := h; net := net w;
     clock := clock w; nextClient := nextClient w |}.

Definition set_net (n : NetState) (w : World) : World :=
  {| events := events w; heap := heap w; net := n;
     clock := clock w; nextClient := nextClient w |}.

Definition bump_nextClient (w : World) : World :=
  {| events := events w; heap := heap w; net := net w;
     clock := clock w; nextClient := S (nextClient w) |}.

(** How a call of [Send] ends: [(response, nil)], [(nil, err)], or a
    run-time panic. *)
Inductive Outcome :=
| Ok (response : Response)
| Fail (err : error)
| Panic (msg : string).

End Types.

(** The functions of the Go library and of the network, which the package
    calls and does not define. *)
Class Collaborators `{T : GoTypes} := {
  strings_ToUpper : string → string;
  (** [url.Parse] *)
  url_Parse : string → url_URL + error;
  (** [url.ParseQuery] with its error dropped, as [URL.Query] does;
      the map it returns is never nil *)
  url_ParseQuery : string → url_Values;
  (** [url.Values.Encode] *)
  Values_Encode : url_Values → string;
  (** [URL.String] *)
  URL_String : url_URL → string;
  json_Marshal : GoValue → list Byte.byte + error;
  (** [json.Unmarshal] into a non-nil pointer: the old and the new pointee *)
  json_Unmarshal : list Byte.byte → GoValue → GoValue * option error;
  (** [*json.InvalidUnmarshalError], for a target that is nil or not a pointer *)
  InvalidUnmarshalError : error;
  (** the error of [http.NewRequest method url _], if any *)
  http_NewRequest_err : string → string → option error;
  (** the credentials of [Request.SetBasicAuth], base64 encoded *)
  basicAuth : string → string → string;
  (** [Client.Do] *)
  client_Do : http_Client → http_Request → NetState → (http_Response + error) * NetState;
  (** the order in which one [for ... range] loop visits a map: Go leaves
      it unspecified *)
  mapRange : gmap string (list string) → list (string * list string);
  mapRange_perm : ∀ m, mapRange m ≡ₚ map_to_list m
}.

(** ** A monad for the body of [Send]

    The state is what [Send] can write to: the session [s], the request
    descriptor [r] and the world.  A computation yields a value, or leaves
    the function with an [Outcome] (a [return], or a panic). *)
Section Monad.
Context `{T : GoTypes}.

Record St := {
  ses : Session;
  rq : Request;
  wld : World
}.

Definition M (A : Type) : Type := St → (A + Outcome) * St.

#[export] Instance M_ret : MRet M := λ A a st, (inl a, st).

#[export] Instance M_bind : MBind M := λ A B f m st,
  match m st with
  | (inl a, st') => f a st'
  | (inr o, st') => (inr o, st')
  end.

Definition exit {A} (o : Outcome) : M A := λ st, (inr o, st).

Definition get_ses : M Session := λ st, (inl (ses st), st).
Definition get_rq : M Request := λ st, (inl (rq st), st).
Definition get_wld : M World := λ st, (inl (wld st), st).

Definition put_ses (s : Session) : M unit :=
  λ st, (inl tt, {| ses := s; rq := rq st; wld := wld st |}).
Definition put_rq (r : Request) : M unit :=
  λ st, (inl tt, {| ses := ses st; rq := r; wld := wld st |}).
Definition put_wld (w : World) : M unit :=
  λ st, (inl tt, {| ses := ses st; rq := rq st; wld := w |}).

Definition modify_rq (f : Request → Request) : M unit :=
  r ← get_rq; put_rq (f r).
Definition modify_wld (f : World → World) : M unit :=
  w ← get_wld; put_wld (f w).

Definition emit (e : Event) : M unit := modify_wld (add_event e).

(** [s.log(args...)], that is [log.Println(args...)]. *)
Definition log (args : list LogArg) : M unit := emit (EvLog args).

End Monad.

(** ** [Session.Send] ([session.go]) *)
Section Send.
Context `{C : Collaborators}.

(** [for k, v := range src { p[k] = v }] *)
Definition rangeAssign (src p : url_Values) : url_Values :=
  foldl (λ acc kv, <[kv.1 := kv.2]> acc) p (mapRange src).

(** [u.Query()] *)
Definition URL_Query (u : url_URL) : url_Values := url_ParseQuery (RawQuery u).

(** Lines 113-133: the query parameters of the session, then those of the
    URL, then those of the request, each assigned over the former. *)
Definition mergeParams (sP : option url_Values) (uQ : url_Values)
    (rP : option url_Values) : url_Values :=
  let p : url_Values := ∅ in
  let p := match sP with Some m => rangeAssign m p | None => p end in
  let p := rangeAssign uQ p in
  let p := match rP with Some m => rangeAssign m p | None => p end in
  p.

(** Lines 142-148: [for k := range *s.Header { header.Set(k, s.Header.Get(k)) }] *)
Definition sessionHeader (sH : option http_Header) : http_Header :=
  match sH with
  | Some h => foldl (λ acc kv, Header_Set acc kv.1 (Header_Get h kv.1)) ∅ (mapRange h)
  | None => ∅
  end.

(** Lines 180-181: the first and the last byte are a pair of braces or of
    brackets. *)
Definition jsonBrackets (bydata : list Byte.byte) : bool :=
  match head bydata, last bydata with
  | Some a, Some z =>
      (Byte.eqb "{"%byte a && Byte.eqb "}"%byte z)
      || (Byte.eqb "["%byte a && Byte.eqb "]"%byte z)
  | _, _ => false
  end.

(** Lines 155-174: the [switch] on the payload's kind, yielding [bydata]
    and [err].  The [String] case first stores the bytes of the string
    back into [r.Payload]. *)
Definition marshalPayload (pl : PayloadValue) : M (list Byte.byte * option error) :=
  match pl with
  | PMap v | PStruct v =>
      match json_Marshal v with
      | inl b => mret (b, None)
      | inr e => mret ([], Some e)
      end
  | PString s =>
      let b := list_byte_of_string s in
      modify_rq (set_Payload (Some (PBytes b)));;
      mret (b, None)
  | PNamedString _ =>
      exit (Panic "interface conversion: interface {} is not string")
  | PBytes b => mret (b, None)
  | PArray v =>
      match json_Marshal v with
      | inl b => mret (b, None)
      | inr _ => mret ([], None)
      end
  | PReader _ | PSlice _ | POther _ => mret ([], None)
  end.

(** Lines 150-186: the body reader and the header after the payload has
    been looked at. *)
Definition encodePayload (header : http_Header) : M (option BodySource * http_Header) :=
  r ← get_rq;
  match Payload r with
  | None => mret (None, header)
  | Some (PReader rd) =>
      modify_rq (set_Payload (Some (PReader rd)));;
      mret (None, header)
  | Some pl =>
      '(bydata, err) ← marshalPayload pl;
      match err with
      | Some e => exit (Fail e)
      | None =>
          if bool_decide (length bydata ≠ 0%nat) then
            let paylodReader := Some (FromBuffer bydata) in
            if jsonBrackets bydata
            then mret (paylodReader, Header_Set header "Content-Type" "application/json")
            else mret (paylodReader, header)
          else mret (None, header)
      end
  end.

(** Lines 195-205: credentials of the URL, then of the session, then of
    the request. *)
Definition chooseUserinfo (u : url_URL) (s : Session) (r : Request) : option url_Userinfo :=
  let userinfo := None in
  let userinfo := match User u with Some x => Some x | None => userinfo end in
  let userinfo := match s_Userinfo s with Some x => Some x | None => userinfo end in
  let userinfo := match Userinfo r with Some x => Some x | None => userinfo end in
  userinfo.

(** Lines 206-210: [for k, v := range *r.Header { header.Set(k, v[0]) }];
    [v[0]] panics on an empty slice. *)
Fixpoint setFirstValues (kvs : list (string * list string)) (header : http_Header)
    : option http_Header :=
  match kvs with
  | [] => Some header
  | (k, v0 :: _) :: kvs' => setFirstValues kvs' (Header_Set header k v0)
  | (_, []) :: _ => None
  end.

Definition requestHeader (header : http_Header) (rH : option http_Header) : M http_Header :=
  match rH with
  | None => mret header
  | Some h =>
      match setFirstValues (mapRange h) header with
      | Some header' => mret header'
      | None => exit (Panic "index out of range [0] with length 0")
      end
  end.

(** Lines 211-213. *)
Definition defaultAccept (header : http_Header) : http_Header :=
  if bool_decide (Header_Get header "Accept" = EmptyString)
  then Header_Add header "Accept" "*/*" else header.

(** [req.SetBasicAuth(username, password)] *)
Definition SetBasicAuth (req : http_Request) (usr pwd : string) : http_Request :=
  set_req_Header
    (Header_Set (req_Header req) "Authorization" ("Basic " +:+ basicAuth usr pwd)) req.

(** Lines 216-223: basic authentication, with a warning on the log when
    the scheme is not https. *)
Definition authenticate (u : url_URL) (userinfo : option url_Userinfo)
    (req : http_Request) : M http_Request :=
  match userinfo with
  | None => mret req
  | Some ui =>
      let req := SetBasicAuth req (username ui) (password ui) in
      (if bool_decide (Scheme u ≠ "https")
       then log [LStr "WARNING: Using HTTP Basic Auth in cleartext is insecure."]
       else mret tt);;
      mret req
  end.

(** Lines 102-223: everything up to the finished [http.Request]. *)
Definition Send_build : M http_Request :=
  modify_rq (λ r, set_Method (strings_ToUpper (Method r)) r);;
  r ← get_rq;
  match url_Parse (Url r) with
  | inr err =>
      log [LStr "URL"; LStr (Url r)];;
      log [LErr err];;
      exit (Fail err)
  | inl u =>
      s ← get_ses;
      let p := mergeParams (s_Params s) (URL_Query u) (Params r) in
      let u := set_RawQuery (Values_Encode p) u in
      modify_rq (set_Params (Some p));;
      let header := sessionHeader (s_Header s) in
      '(paylodReader, header) ← encodePayload header;
      r ← get_rq;
      match http_NewRequest_err (Method r) (URL_String u) with
      | Some err => log [LErr err];; exit (Fail err)
      | None =>
          let req := {| req_Method := Method r; req_URL := URL_String u;
                        req_Body := paylodReader; req_Header := ∅ |} in
          let userinfo := chooseUserinfo u s r in
          header ← requestHeader header (Header r);
          let header := defaultAccept header in
          let req := set_req_Header header req in
          authenticate u userinfo req
      end
  end.

(** Lines 226-236: the session's client, or a new one that the session
    keeps. *)
Definition chooseClient : M http_Client :=
  s ← get_ses;
  match Client s with
  | Some client => mret client
  | None =>
      r ← get_rq;
      w ← get_wld;
      let client := {| client_addr := nextClient w; client_Transport := None |} in
      put_wld (bump_nextClient w);;
      let client :=
        match Transport r with
        | Some t => {| client_addr := client_addr client; client_Transport := Some t |}
        | None => client
        end in
      put_ses (set_Client (Some client) s);;
      mret client
  end.

(** [client.Do(req)] *)
Definition Do (client : http_Client) (req : http_Request) : M (http_Response + error) :=
  w ← get_wld;
  let '(res, n) := client_Do client req (net w) in
  put_wld (set_net n w);;
  emit (EvDo client req res);;
  mret res.

(** [json.Unmarshal(data, v)] for a non-nil [v]. *)
Definition Unmarshal_into (data : list Byte.byte) (v : Target) (h : gmap nat GoValue)
    : gmap nat GoValue * option error :=
  match v with
  | TPtr l =>
      match h !! l with
      | Some old => let '(new, e) := json_Unmarshal data old in (<[l := new]> h, e)
      | None => (h, Some InvalidUnmarshalError)
      end
  | TNonPtr _ => (h, Some InvalidUnmarshalError)
  end.

(** A call of [json.Unmarshal] whose error is dropped. *)
Definition Unmarshal_ignore (data : list Byte.byte) (v : Target) : M unit :=
  modify_wld (λ w, set_heap (Unmarshal_into data v (heap w)).1 w).

(** Lines 245-262; the deferred [resp.Body.Close()] runs when [Send]
    returns. *)
Definition processBody (resp : http_Response) : M unit :=
  r ← get_rq;
  if NotProcessBody r then mret tt
  else
    let '(data, rerr) := ioutil_ReadAll resp in
    modify_rq (set_body data);;
    match rerr with
    | Some err =>
        log [LErr err];;
        emit (EvClose resp);;
        exit (Fail err)
    | None =>
        (if bool_decide (data ≠ []) then
           (match Result r with
            | Some v => if (StatusCode resp <=? 200)%Z then Unmarshal_ignore data v else mret tt
            | None => mret tt
            end);;
           (match Error r with
            | Some v => if (StatusCode resp >? 200)%Z then Unmarshal_ignore data v else mret tt
            | None => mret tt
            end)
         else mret tt);;
        emit (EvClose resp)
    end.

(** Lines 225-243: the time stamp, the client, the call of the transport,
    the status and the raw response. *)
Definition Send_dispatch (req : http_Request) : M http_Response :=
  w ← get_wld;
  modify_rq (set_timestamp (clock w));;
  client ← chooseClient;
  res ← Do client req;
  match res with
  | inr err => log [LErr err];; exit (Fail err)
  | inl resp =>
      modify_rq (set_status (StatusCode resp));;
      modify_rq (set_response (Some resp));;
      mret resp
  end.

(** Lines 225-267. *)
Definition Send_execute (req : http_Request) : M Response :=
  resp ← Send_dispatch req;
  processBody resp;;
  r ← get_rq;
  mret (r : Response).

(** [func (s *Session) Send(r *Request) (response *Response, err error)] *)
Definition Send_body : M Response :=
  req ← Send_build;
  Send_execute req.

Definition Send (s : Session) (r : Request) (w : World) : Outcome * St :=
  match Send_body {| ses := s; rq := r; wld := w |} with
  | (inl response, st) => (Ok response, st)
  | (inr o, st) => (o, st)
  end.

(** The package-level [Send] of [api.go]: [s := Session{}; return s.Send(r)]. *)
Definition napping_Send (r : Request) (w : World) : Outcome * St :=
  Send {| Client := None; s_Userinfo := None; s_Header := None; s_Params := None |} r w.

End Send.

(** ** The [Response] accessors ([request.go]) *)
Section Response.
Context `{C : Collaborators}.

Definition Timestamp (r : Response) : Z := timestamp r.

Definition RawByte (r : Response) : list Byte.byte := body r.

Definition Status (r : Response) : Z := status r.

Definition StatusOk (r : Response) : bool := (status r <=? 300)%Z.

Definition HttpResponse (r : Response) : option http_Response := response r.

(** [func (r *Response) Unmarshal(v interface{}) error]: the receiver is
    only read; the caller's memory and the error come back. *)
Definition Unmarshal (r : Response) (v : option Target) (h : gmap nat GoValue)
    : Response * gmap nat GoValue * option error :=
  match v with
  | Some t => let '(h', e) := Unmarshal_into (body r) t h in (r, h', e)
  | None => (r, h, Some InvalidUnmarshalError)
  end.

End Response.

(** ** Runs of several calls *)
Section Runs.
Context `{C : Collaborators}.

(** One session sending one request descriptor after the other; each
    call's outcome is kept, and a panic is taken to be recovered by the
    caller. *)
Fixpoint SendAll (s : Session) (rs : list Request) (w : World)
    : list Outcome * Session * World :=
  match rs with
  | [] => ([], s, w)
  | r :: rs' =>
      let '(o, st) := Send s r w in
      let '(os, s', w') := SendAll (ses st) rs' (wld st) in
      (o :: os, s', w')
  end.

(** [Unmarshal] called once for each target of the list, in order. *)
Fixpoint UnmarshalAll (r : Response) (vs : list (option Target)) (h : gmap nat GoValue)
    : Response * gmap nat GoValue * list (option error) :=
  match vs with
  | [] => (r, h, [])
  | v :: vs' =>
      let '(r', h', e) := Unmarshal r v h in
      let '(r'', h'', es) := UnmarshalAll r' vs' h' in
      (r'', h'', e :: es)
  end.

(** The calls of [client.Do] among the events. *)
Definition transportCalls (evs : list Event) : list (http_Client * http_Request) :=
  omap (λ e, match e with EvDo c req _ => Some (c, req) | _ => None end) evs.

(** The events a call added to the [before] it started from. *)
Definition newEvents (before after : list Event) : list Event :=
  drop (length before) after.

End Runs.

(** ** The vocabulary of the properties *)
Section Vocabulary.
Context `{C : Collaborators}.

(** [respects I m]: every run of [m] takes a state to one related to it by
    [I].  For a preorder [I] this is closed under the monad's operations,
    so that a frame property of [Send] follows the shape of its code. *)
Definition respects {A} (I : relation St) (m : M A) : Prop :=
  ∀ st res st', m st = (res, st') → I st st'.

(** A relation that does not look at the request descriptor. *)
Definition ignores_rq (I : relation St) : Prop :=
  ∀ st r, I st {| ses := ses st; rq := r; wld := wld st |}.

Definition notDo (e : Event) : Prop :=
  match e with EvDo _ _ _ => False | _ => True end.

(** Calm steps: the session, the network and the count of clients stay;
    the events grow by lines of the log and closings only. *)
Record calm (st st' : St) : Prop := {
  calm_ses : ses st' = ses st;
  calm_net : net (wld st') = net (wld st);
  calm_nextClient : nextClient (wld st') = nextClient (wld st);
  calm_events : ∃ evs, Forall notDo evs ∧ events (wld st') = events (wld st) ++ evs
}.

(** Steps that keep the caller's memory. *)
Definition sameHeap (st st' : St) : Prop := heap (wld st') = heap (wld st).

(** Steps that keep a field of the request descriptor. *)
Definition sameField {X} (get : Request → X) (st st' : St) : Prop :=
  get (rq st') = get (rq st).

(** The state a call of [s.Send(r)] starts in. *)
Definition start (s : Session) (r : Request) (w : World) : St :=
  {| ses := s; rq := r; wld := w |}.

(** The client a call dispatches with. *)
Definition clientOf (s : Session) (r : Request) (w : World) : http_Client :=
  match Client s with
  | Some c => c
  | None => {| client_addr := nextClient w; client_Transport := Transport r |}
  end.

(** What lines 254-261 leave in the caller's memory. *)
Definition decoded (r : Request) (resp : http_Response) (h : gmap nat GoValue)
    : gmap nat GoValue :=
  let h1 :=
    match Result r with
    | Some v => if (StatusCode resp <=? 200)%Z
                then (Unmarshal_into (Body resp) v h).1 else h
    | None => h
    end in
  match Error r with
  | Some v => if (StatusCode resp >? 200)%Z
              then (Unmarshal_into (Body resp) v h1).1 else h1
  | None => h1
  end.

(** The header a composed request carries, from the header [h1] that
    [encodePayload] left. *)
Definition finalHeader (h1 : http_Header) (rH : option http_Header)
    (userinfo : option url_Userinfo) (h : http_Header) : Prop :=
  ∃ h2,
    match rH with
    | None => h2 = h1
    | Some m => setFirstValues (mapRange m) h1 = Some h2
    end
    ∧ h = match userinfo with
          | None => defaultAccept h2
          | Some ui =>
              Header_Set (defaultAccept h2) "Authorization"
                ("Basic " +:+ basicAuth (username ui) (password ui))
          end.

(** [merged] takes each key from [hi] when [hi] has it, else from [mid]
    when [mid] has it, else from [lo]. *)
Definition precedence (hi mid lo merged : url_Values) : Prop :=
  ∀ k, merged !! k =
         match hi !! k with
         | Some v => Some v
         | None => match mid !! k with
                   | Some v => Some v
                   | None => lo !! k
                   end
         end.

(** The request's own header has an entry whose key is, in canonical
    form, [Content-Type]. *)
Definition suppliesContentType (rH : option http_Header) : Prop :=
  ∃ m k, rH = Some m ∧ is_Some (m !! k)
         ∧ textproto.CanonicalMIMEHeaderKey k = "Content-Type".

(** The same state, with another [Transport] on the descriptor. *)
Definition withTransport (t : option http_Transport) (st : St) : St :=
  {| ses := ses st; rq := set_Transport t (rq st); wld := wld st |}.

Definition onResponse (f : Response → Response) (o : Outcome) : Outcome :=
  match o with
  | Ok response => Ok (f response)
  | _ => o
  end.

(** [m1] run from a state whose session has a client, and [m2] run from
    the same state with the [Transport] [t] on the descriptor, end alike:
    the same error or panic, or values related by [R]. *)
Definition agree (t : option http_Transport) {A} (R : A → A → Prop)
    (m1 m2 : M A) : Prop :=
  ∀ st, is_Some (Client (ses st)) →
    is_Some (Client (ses (m1 st).2))
    ∧ (m2 (withTransport t st)).2 = withTransport t (m1 st).2
    ∧ match (m1 st).1, (m2 (withTransport t st)).1 with
      | inl a1, inl a2 => R a1 a2
      | inr o1, inr o2 => o1 = o2 ∧ onResponse (set_Transport t) o1 = o1
      | _, _ => False
      end.

(** *** Two sentences of the specification, as they are worded *)

(** Query parameters: the request's over the session's defaults over
    those of the URL. *)
Definition params_claim (s : Session) (r : Request) (w : World) : Prop :=
  ∀ u merged,
    url_Parse (Url r) = inl u →
    Params (rq (Send s r w).2) = Some merged →
    (∃ k, is_Some (default ∅ (Params r) !! k) ∧ is_Some (default ∅ (s_Params s) !! k)
          ∧ is_Some (URL_Query u !! k)) →
    precedence (default ∅ (Params r)) (default ∅ (s_Params s)) (URL_Query u) merged.

(** Content type: one supplied by the session's default header or by the
    request's header is the one sent with a body bracketed as JSON. *)
Definition contentType_claim (s : Session) (r : Request) (w : World) : Prop :=
  ∀ c req ans b x,
    EvDo c req ans ∈ newEvents (events w) (events (wld (Send s r w).2)) →
    req_Body req = Some (FromBuffer b) →
    jsonBrackets b = true →
    x ≠ EmptyString →
    Header_Get (default ∅ (s_Header s)) "Content-Type" = x
    ∨ Header_Get (default ∅ (Header r)) "Content-Type" = x →
    Header_Get (req_Header req) "Content-Type" = x.

End Vocabulary.

(** ** A test double of the collaborators

    Concrete stand-ins for the Go library and the network, in the manner of
    the stub servers of a Go test: errors are their messages, a dynamic
    value is its JSON text, a transport is a number, and the network counts
    the requests it has served. *)
Module Fixture.

#[local] Instance types : GoTypes :=
  {| GoValue := string; error := string; http_Transport := nat; NetState := nat |}.

Definition toUpper (s : string) : string :=
  string_of_list_ascii
    (map (λ c, if textproto.isLower c then ascii_of_nat (nat_of_ascii c - 32)%nat else c)
       (list_ascii_of_string s)).

(** The text before and after the first [sep]. *)
Fixpoint cut (sep : ascii) (s : string) : string * option string :=
  match s with
  | EmptyString => (EmptyString, None)
  | String c s' =>
      if Ascii.eqb c sep then (EmptyString, Some s')
      else let '(a, b) := cut sep s' in (String c a, b)
  end.

Fixpoint splitOn (sep : ascii) (s : string) (fuel : nat) : list string :=
  match fuel with
  | O => [s]
  | S fuel' =>
      match cut sep s with
      | (a, Some b) => a :: splitOn sep b fuel'
      | (a, None) => [a]
      end
  end.

(** A query string without escapes: [k=v] pairs joined by [&]. *)
Definition parseQuery (q : string) : url_Values :=
  foldl (λ (m : url_Values) kv,
           if bool_decide (kv = EmptyString) then m
           else let '(k, v) := cut "=" kv in
                <[k := default [] (m !! k) ++ [default EmptyString v]]> m)
    ∅ (splitOn "&" q (String.length q)).

Definition keyLe (x y : string * list string) : Prop :=
  Is_true (String.leb x.1 y.1).

#[local] Instance keyLe_dec : RelDecision keyLe :=
  λ x y, decide (Is_true (String.leb x.1 y.1)).

(** The pairs sorted by key, as [Values.Encode] writes them. *)
Definition encode (p : url_Values) : string :=
  String.concat "&"
    (flat_map (λ kv : string * list string, map (λ v, kv.1 +:+ "=" +:+ v) kv.2)
       (merge_sort keyLe (map_to_list p))).

(** [scheme://host/path?query]; a text without [://] has no scheme. *)
Definition parse (raw : string) : url_URL + string :=
  match cut ":" raw with
  | (EmptyString, _) | (_, None) =>
      inr ("parse " +:+ raw +:+ ": missing protocol scheme")
  | (scheme, Some rest) =>
      let rest := String.substring 2 (String.length rest - 2)%nat rest in
      let '(hostpath, q) := cut "?" rest in
      let '(host, path) := cut "/" hostpath in
      inl {| Scheme := scheme; User := None; Host := host;
             Path := match path with Some p => "/" +:+ p | None => EmptyString end;
             RawQuery := default EmptyString q; Fragment := EmptyString |}
  end.

Definition urlString (u : url_URL) : string :=
  Scheme u +:+ "://" +:+ Host u +:+ Path u
  +:+ (if bool_decide (RawQuery u = EmptyString) then EmptyString else "?" +:+ RawQuery u).

Definition marshal (v : string) : list Byte.byte + string :=
  if bool_decide (v = "chan") then inr "json: unsupported type: chan int"
  else inl (list_byte_of_string v).

Definition unmarshal (data : list Byte.byte) (old : string) : string * option string :=
  match data with
  | ("{" | "[")%byte :: _ => (string_of_list_byte data, None)
  | _ => (old, Some "invalid character looking for beginning of value")
  end.

Definition reply (code : Z) (text : string) : @http_Response types :=
  {| StatusCode := code; resp_Header := {[ "Content-Type" := ["application/json"] ]};
     Body := list_byte_of_string text; BodyErr := None |}.

(** The server: 200 for GET, 201 for POST, 404 for DELETE, each with a
    JSON body (an array holding the status); an empty 200 otherwise.  No host [unreachable.test] exists. *)
Definition serve (c : @http_Client types) (req : @http_Request types) (n : nat)
    : (@http_Response types + string) * nat :=
  if String.prefix "http://unreachable.test" (req_URL req)
  then (inr "dial tcp: no such host", S n)
  else if bool_decide (req_Method req = "GET") then (inl (reply 200 "[200]"), S n)
  else if bool_decide (req_Method req = "POST") then (inl (reply 201 "[201]"), S n)
  else if bool_decide (req_Method req = "DELETE") then (inl (reply 404 "[404]"), S n)
  else (inl (reply 200 EmptyString), S n).

#[local] Instance collab : @Collaborators types :=
  {| strings_ToUpper := toUpper;
     url_Parse := parse : string → url_URL + @error types;
     url_ParseQuery := parseQuery;
     Values_Encode := encode;
     URL_String := urlString;
     json_Marshal := marshal : @GoValue types → _ + @error types;
     json_Unmarshal := unmarshal : _ → @GoValue types → @GoValue types * option (@error types);
     InvalidUnmarshalError := "json: Unmarshal(non-pointer or nil)" : @error types;
     http_NewRequest_err := λ _ _, None;
     basicAuth := λ usr pwd, usr +:+ ":" +:+ pwd;
     client_Do := serve;
     mapRange := map_to_list;
     mapRange_perm := λ m, reflexivity (map_to_list m) |}.

Definition world0 : @World types :=
  {| events := []; heap := ∅; net := 0%nat; clock := 1700000000; nextClient := 0%nat |}.

Definition session0 : @Session types :=
  {| Client := None; s_Userinfo := None; s_Header := None; s_Params := None |}.

Definition request0 (method url : string) : @Request types :=
  {| Url := url; Method := method; Params := None; Payload := None;
     NotProcessBody := false; Result := None; Error := None;
     Userinfo := None; Header := None; Transport := None;
     timestamp := 0; status := 0; response := None; body := [] |}.

(** *** Inputs *)

(** A session with default parameters [a], [b], [c] and a default
    Content-Type. *)
Definition session1 : Session :=
  {| Client := None; s_Userinfo := None;
     s_Header := Some {[ "Content-Type" := ["text/plain"] ]};
     s_Params := Some {[ "a" := ["ses"]; "b" := ["ses"]; "c" := ["ses"] ]} |}.

(** A GET whose URL carries [a] and [b] and whose own parameters carry [a]. *)
Definition getRequest : Request :=
  set_Params (Some {[ "a" := ["req"] ]})
    (request0 "get" "http://example.com/get?a=url&b=url").

(** A POST of the text [{}]. *)
Definition postText : Request :=
  set_Payload (Some (PString "{}")) (request0 "post" "http://example.com/post").

(** A POST of a stream. *)
Definition postStream : Request :=
  set_Payload (Some (PReader "stream")) (request0 "post" "http://example.com/post").

(** A POST of a map that JSON cannot encode. *)
Definition postChan : Request :=
  set_Payload (Some (PMap "chan")) (request0 "post" "http://example.com/post").

(** A DELETE with an error destination that is not a pointer. *)
Definition deleteRequest : Request :=
  {| Url := "http://example.com/item"; Method := "DELETE"; Params := None;
     Payload := None; NotProcessBody := false;
     Result := None; Error := Some (TNonPtr "target");
     Userinfo := None; Header := None; Transport := None;
     timestamp := 0; status := 0; response := None; body := [] |}.

(** The client a session without one creates first. *)
Definition client0 : http_Client := {| client_addr := 0; client_Transport := None |}.

(** The events of the call [s.Send(r)] from the world [world0]. *)
Definition eventsOf (s : Session) (r : Request) : list Event :=
  newEvents (events world0) (events (wld (Send s r world0).2)).

(** The requests handed to the transport by that call. *)
Definition sentBy (s : Session) (r : Request) : list http_Request :=
  (transportCalls (eventsOf s r)).*2.

(** The request that [session1.Send(postText)] hands to the transport. *)
Definition postTextSent : http_Request :=
  {| req_Method := "POST"; req_URL := "http://example.com/post?a=ses&b=ses&c=ses";
     req_Body := Some (FromBuffer (list_byte_of_string "{}"));
     req_Header := {[ "Accept" := ["*/*"]; "Content-Type" := ["application/json"] ]} |}.

(** The request that [session0.Send(deleteRequest)] hands to the transport. *)
Definition deleteSent : http_Request :=
  {| req_Method := "DELETE"; req_URL := "http://example.com/item";
     req_Body := None; req_Header := {[ "Accept" := ["*/*"] ]} |}.

(** The URLs of the inputs, parsed. *)
Definition getURL : url_URL :=
  {| Scheme := "http"; User := None; Host := "example.com"; Path := "/get";
     RawQuery := "a=url&b=url"; Fragment := EmptyString |}.

Definition postURL : url_URL :=
  {| Scheme := "http"; User := None; Host := "example.com"; Path := "/post";
     RawQuery := EmptyString; Fragment := EmptyString |}.

(** A GET of a URL that does not parse. *)
Definition badRequest : Request := request0 "get" "://bad".

(** A POST of the text [{}] under a Content-Type of the request's own. *)
Definition jsonTextAs (ct : string) : Request :=
  {| Url := "http://example.com/post"; Method := "POST"; Params := None;
     Payload := Some (PString "{}"); NotProcessBody := false;
     Result := None; Error := None;
     Userinfo := None; Header := Some {[ "content-type" := [ct] ]};
     Transport := None;
     timestamp := 0; status := 0; response := None; body := [] |}.

(** A GET with both destinations, pointers 1 and 2. *)
Definition getBoth : Request :=
  {| Url := "http://example.com/get"; Method := "GET"; Params := None;
     Payload := None; NotProcessBody := false;
     Result := Some (TPtr 1); Error := Some (TPtr 2);
     Userinfo := None; Header := None; Transport := None;
     timestamp := 0; status := 0; response := None; body := [] |}.

(** [world0] with the pointers 1 and 2 holding [old]. *)
Definition heapOld : World :=
  {| events := []; heap := {[ 1%nat := "old"; 2%nat := "old" ]}; net := 0%nat;
     clock := 1700000000; nextClient := 0%nat |}.

(** The response to a plain GET. *)
Definition getResponse : Response :=
  rq (Send session0 (request0 "GET" "http://example.com/get") world0).2.

(** Three pointers holding [old]. *)
Definition heapThree : gmap nat GoValue :=
  {[ 1%nat := "old"; 2%nat := "old"; 5%nat := "old" ]}.

End Fixture.

(** * Properties *)

Example canon_content_type :
  textproto.CanonicalMIMEHeaderKey "content-type" = "Content-Type".
Proof. reflexivity. Qed.

Example canon_invalid_unchanged :
  textproto.CanonicalMIMEHeaderKey "x y" = "x y".
Proof. reflexivity. Qed.

(** ** The merger of query parameters *)
Section Merger.
Context `{C : Collaborators}.

(** Assigning the pairs of a list with distinct keys over [p] is the
    left-biased union. *)
Lemma foldl_assign_union (l : list (string * list string)) (p : url_Values) :
  NoDup l.*1 →
  foldl (λ acc kv, <[kv.1 := kv.2]> acc) p l = list_to_map l ∪ p.
Proof.
  revert p. induction l as [|[k v] l IH]; intros p Hnd.
  - simpl. by rewrite (left_id_L ∅ (∪)).
  - rewrite fmap_cons in Hnd. apply NoDup_cons in Hnd as [Hk Hnd].
    simpl. rewrite IH by done.
    rewrite <- insert_union_l. symmetry. apply insert_union_r.
    by apply not_elem_of_list_to_map_1.
Qed.

(** The order a [range] loop visits the map in does not show in the
    result. *)
Lemma rangeAssign_union (src p : url_Values) : rangeAssign src p = src ∪ p.
Proof.
  unfold rangeAssign. rewrite foldl_assign_union.
  - f_equal. rewrite (list_to_map_proper _ (map_to_list src)).
    + apply list_to_map_to_list.
    + rewrite mapRange_perm. apply NoDup_fst_map_to_list.
    + apply mapRange_perm.
  - rewrite mapRange_perm. apply NoDup_fst_map_to_list.
Qed.

Lemma mergeParams_union sP uQ rP :
  mergeParams sP uQ rP = default ∅ rP ∪ (uQ ∪ default ∅ sP).
Proof.
  unfold mergeParams. destruct sP as [sP|], rP as [rP|]; simpl;
    rewrite ?rangeAssign_union, ?(left_id_L ∅ (∪)), ?(right_id_L ∅ (∪)); done.
Qed.

End Merger.

(** ** What a computation leaves untouched

    [respects I m]: every run of [m] takes a state to one related to it by
    [I].  For a preorder [I] this is closed under the monad's operations,
    so that a frame property of [Send] follows the shape of its code. *)
Section Frames.
Context `{T : GoTypes}.

Lemma respects_bind {A B} (I : relation St) `{!Transitive I}
    (m : M A) (f : A → M B) :
  respects I m → (∀ a, respects I (f a)) → respects I (m ≫= f).
Proof.
  intros Hm Hf st res st'. unfold mbind, M_bind.
  destruct (m st) as [[a|o] st1] eqn:E.
  - intros E2. etrans; [exact (Hm _ _ _ E)|exact (Hf _ _ _ _ E2)].
  - intros [= <- <-]. exact (Hm _ _ _ E).
Qed.

Lemma respects_ret {A} (I : relation St) `{!Reflexive I} (a : A) :
  respects I (mret a).
Proof. by intros st res st' [= <- <-]. Qed.

Lemma respects_exit {A} (I : relation St) `{!Reflexive I} o :
  respects I (exit (A:=A) o).
Proof. by intros st res st' [= <- <-]. Qed.

Lemma respects_get_rq (I : relation St) `{!Reflexive I} : respects I get_rq.
Proof. by intros st res st' [= <- <-]. Qed.

Lemma respects_get_ses (I : relation St) `{!Reflexive I} : respects I get_ses.
Proof. by intros st res st' [= <- <-]. Qed.

Lemma respects_get_wld (I : relation St) `{!Reflexive I} : respects I get_wld.
Proof. by intros st res st' [= <- <-]. Qed.

Lemma respects_put_rq (I : relation St) r : ignores_rq I → respects I (put_rq r).
Proof. intros HI st res st' [= <- <-]. apply HI. Qed.

Lemma respects_modify_rq (I : relation St) f : ignores_rq I → respects I (modify_rq f).
Proof. intros HI st res st' [= <- <-]. apply HI. Qed.

(** *** Calm steps: no call of the transport, no new client *)

Lemma calm_refl : Reflexive calm.
Proof.
  intros st. split; try done. exists []. split; [constructor|by rewrite app_nil_r].
Qed.

Lemma calm_trans : Transitive calm.
Proof.
  intros a b c [H1 H2 H3 (e1 & F1 & E1)] [G1 G2 G3 (e2 & F2 & E2)].
  split; try congruence. exists (e1 ++ e2). split; [by apply Forall_app|].
  by rewrite E2, E1, app_assoc.
Qed.

Lemma calm_ignores_rq : ignores_rq calm.
Proof. intros st r. split; simpl; try done. exists []. split; [constructor|by rewrite app_nil_r]. Qed.

Lemma calm_emit e : notDo e → respects calm (emit e).
Proof.
  intros He st res st' [= <- <-]. split; simpl; try done.
  exists [e]. split; [by constructor|done].
Qed.

Lemma calm_log args : respects calm (log args).
Proof. by apply calm_emit. Qed.

Lemma calm_set_heap (f : World → gmap nat GoValue) :
  respects calm (modify_wld (λ w, set_heap (f w) w)).
Proof.
  intros st res st' [= <- <-]. split; simpl; try done.
  exists []. split; [constructor|by rewrite app_nil_r].
Qed.

(** *** Steps that keep the caller's memory *)

Lemma sameHeap_refl : Reflexive sameHeap.
Proof. by intros st. Qed.

Lemma sameHeap_trans : Transitive sameHeap.
Proof. unfold sameHeap. intros a b c H1 H2. congruence. Qed.

Lemma sameHeap_ignores_rq : ignores_rq sameHeap.
Proof. by intros st r. Qed.

Lemma sameHeap_emit e : respects sameHeap (emit e).
Proof. by intros st res st' [= <- <-]. Qed.

(** *** Steps that keep a field of the request descriptor *)

Lemma sameField_refl {X} (get : Request → X) : Reflexive (sameField get).
Proof. by intros st. Qed.

Lemma sameField_trans {X} (get : Request → X) : Transitive (sameField get).
Proof. unfold sameField. intros a b c H1 H2. congruence. Qed.

Lemma sameField_modify_rq {X} (get : Request → X) f :
  (∀ r, get (f r) = get r) → respects (sameField get) (modify_rq f).
Proof. intros Hf st res st' [= <- <-]. apply Hf. Qed.

Lemma sameField_modify_wld {X} (get : Request → X) f :
  respects (sameField get) (modify_wld f).
Proof. by intros st res st' [= <- <-]. Qed.

Lemma sameField_put_wld {X} (get : Request → X) w :
  respects (sameField get) (put_wld w).
Proof. by intros st res st' [= <- <-]. Qed.

Lemma sameField_put_ses {X} (get : Request → X) s :
  respects (sameField get) (put_ses s).
Proof. by intros st res st' [= <- <-]. Qed.

End Frames.

#[local] Existing Instances calm_refl calm_trans sameHeap_refl sameHeap_trans
  sameField_refl sameField_trans.

(** One step of a frame proof, following the code. *)
Ltac respects_step :=
  first
    [ apply respects_ret; apply _
    | apply respects_exit; apply _
    | apply respects_get_rq; apply _
    | apply respects_get_ses; apply _
    | apply respects_get_wld; apply _
    | apply respects_modify_rq; first [apply calm_ignores_rq | apply sameHeap_ignores_rq]
    | apply respects_put_rq; first [apply calm_ignores_rq | apply sameHeap_ignores_rq]
    | apply calm_log
    | apply calm_set_heap
    | apply calm_emit; exact I
    | apply sameHeap_emit
    | apply sameField_modify_rq; intros ?; reflexivity
    | apply sameField_modify_wld
    | apply sameField_put_wld
    | apply sameField_put_ses
    | apply respects_bind; [apply _ | | intros ?]
    | case_match ].

Section SendFrames.
Context `{C : Collaborators}.

Lemma calm_encodePayload h : respects calm (encodePayload h).
Proof. unfold encodePayload, marshalPayload. repeat respects_step. Qed.

Lemma calm_requestHeader h rH : respects calm (requestHeader h rH).
Proof. unfold requestHeader. repeat respects_step. Qed.

Lemma calm_authenticate u ui req : respects calm (authenticate u ui req).
Proof. unfold authenticate. repeat respects_step. Qed.

(** Composing the request writes at most log lines. *)
Lemma calm_Send_build : respects calm Send_build.
Proof.
  unfold Send_build.
  repeat first [apply calm_encodePayload | apply calm_requestHeader
               | apply calm_authenticate | respects_step].
Qed.

Lemma sameHeap_Send_build : respects sameHeap Send_build.
Proof.
  unfold Send_build, encodePayload, marshalPayload, requestHeader, authenticate, log.
  repeat respects_step.
Qed.

Lemma calm_processBody resp : respects calm (processBody resp).
Proof. unfold processBody, Unmarshal_ignore. repeat respects_step. Qed.

End SendFrames.

(** ** The stages of one call *)
Section SendRuns.
Context `{C : Collaborators}.

Lemma Send_stages s r w :
  Send s r w =
    match Send_build (start s r w) with
    | (inr o, st1) => (o, st1)
    | (inl req, st1) =>
        match Send_dispatch req st1 with
        | (inr o, st2) => (o, st2)
        | (inl resp, st2) =>
            match processBody resp st2 with
            | (inr o, st3) => (o, st3)
            | (inl _, st3) => (Ok (rq st3), st3)
            end
        end
    end.
Proof.
  unfold Send, Send_body, Send_execute, start, mbind, M_bind.
  destruct (Send_build _) as [[req|o] st1]; [|done].
  destruct (Send_dispatch req st1) as [[resp|o] st2]; [|done].
  destruct (processBody resp st2) as [[[]|o] st3]; done.
Qed.

Lemma newEvents_app (l new : list Event) : newEvents l (l ++ new) = new.
Proof. unfold newEvents. by rewrite drop_app_length. Qed.

Lemma Send_dispatch_run req st res st' :
  Send_dispatch req st = (res, st') →
  let c := clientOf (ses st) (rq st) (wld st) in
  let ans := (client_Do c req (net (wld st))).1 in
  ses st' = match Client (ses st) with
            | Some _ => ses st
            | None => set_Client (Some c) (ses st)
            end
  ∧ nextClient (wld st') = match Client (ses st) with
                           | Some _ => nextClient (wld st)
                           | None => S (nextClient (wld st))
                           end
  ∧ heap (wld st') = heap (wld st)
  ∧ (∃ logs, Forall notDo logs
             ∧ events (wld st') = events (wld st) ++ EvDo c req ans :: logs)
  ∧ res = match ans with inl resp => inl resp | inr err => inr (Fail err) end
  ∧ rq st' = match ans with
             | inl resp =>
                 set_response (Some resp)
                   (set_status (StatusCode resp) (set_timestamp (clock (wld st)) (rq st)))
             | inr _ => set_timestamp (clock (wld st)) (rq st)
             end.
Proof.
  unfold Send_dispatch, chooseClient, Do, clientOf, log, emit, modify_rq, modify_wld,
    get_rq, get_ses, get_wld, put_rq, put_ses, put_wld, exit, mbind, mret, M_bind, M_ret.
  destruct st as [s r w]; simpl.
  destruct (Client s) as [c|] eqn:Ec; simpl.
  - destruct (client_Do c req (net w)) as [[resp|err] n] eqn:Ed; simpl;
      intros [= <- <-]; simpl; repeat split; try done.
    + exists []. by split; [constructor|].
    + exists [EvLog [LErr err]]. split; [by repeat constructor|].
      by rewrite <- app_assoc.
  - destruct (Transport r) as [t|] eqn:Et; simpl.
    + destruct (client_Do _ req (net w)) as [[resp|err] n] eqn:Ed; simpl;
        intros [= <- <-]; simpl; repeat split; try done.
      * exists []. by split; [constructor|].
      * exists [EvLog [LErr err]]. split; [by repeat constructor|].
        by rewrite <- app_assoc.
    + destruct (client_Do _ req (net w)) as [[resp|err] n] eqn:Ed; simpl;
        intros [= <- <-]; simpl; repeat split; try done.
      * exists []. by split; [constructor|].
      * exists [EvLog [LErr err]]. split; [by repeat constructor|].
        by rewrite <- app_assoc.
Qed.

Lemma processBody_decodes resp st :
  NotProcessBody (rq st) = false → BodyErr resp = None → Body resp ≠ [] →
  ∃ st', processBody resp st = (inl tt, st')
         ∧ body (rq st') = Body resp
         ∧ heap (wld st') = decoded (rq st) resp (heap (wld st)).
Proof.
  intros Hn He Hb. unfold processBody, decoded, Unmarshal_ignore, ioutil_ReadAll, log,
    emit, modify_rq, modify_wld, get_rq, get_ses, get_wld, put_rq, put_ses, put_wld,
    exit, mbind, mret, M_bind, M_ret.
  destruct st as [s r w]; simpl in *. rewrite Hn, He. simpl.
  rewrite (bool_decide_eq_true_2 _ Hb).
  destruct (Result r) as [v|], (Error r) as [v'|];
    destruct (StatusCode resp <=? 200)%Z, (StatusCode resp >? 200)%Z; simpl;
    eexists; split; try reflexivity; done.
Qed.

End SendRuns.

Section SendFields.
Context `{C : Collaborators}.

(** A field that the setters of [Method], [Params] and [Payload] do not
    touch comes out of the composing stage as it went in. *)
Lemma sameField_Send_build {X} (get : Request → X) :
  (∀ x r, get (set_Method x r) = get r) →
  (∀ x r, get (set_Params x r) = get r) →
  (∀ x r, get (set_Payload x r) = get r) →
  respects (sameField get) Send_build.
Proof.
  intros H1 H2 H3.
  unfold Send_build, encodePayload, marshalPayload, requestHeader, authenticate, log, emit.
  repeat first
    [ apply sameField_modify_rq; intros ?; simpl; solve [auto] | respects_step ].
Qed.

(** The dispatching stage only writes [timestamp], [status] and [response]. *)
Lemma sameField_Send_dispatch {X} (get : Request → X) req :
  (∀ x r, get (set_timestamp x r) = get r) →
  (∀ x r, get (set_status x r) = get r) →
  (∀ x r, get (set_response x r) = get r) →
  respects (sameField get) (Send_dispatch req).
Proof.
  intros H1 H2 H3.
  unfold Send_dispatch, chooseClient, Do, log, emit.
  repeat first
    [ apply sameField_modify_rq; intros ?; simpl; solve [auto] | respects_step ].
Qed.

(** Reading the body only writes [body]. *)
Lemma sameField_processBody {X} (get : Request → X) resp :
  (∀ x r, get (set_body x r) = get r) →
  respects (sameField get) (processBody resp).
Proof.
  intros H1.
  unfold processBody, Unmarshal_ignore, log, emit.
  repeat first
    [ apply sameField_modify_rq; intros ?; simpl; solve [auto] | respects_step ].
Qed.

End SendFields.

(** ** Errors met before the transport is reached *)
Section EarlyErrors.
Context `{C : Collaborators}.

(** The events of a call that gave up while composing the request hold no
    call of the transport. *)
Lemma calm_no_transportCalls st st' :
  calm st st' →
  transportCalls (newEvents (events (wld st)) (events (wld st'))) = [].
Proof.
  intros [_ _ _ (evs & Hevs & ->)]. rewrite newEvents_app.
  induction Hevs as [|e evs He _ IH]; [done|].
  unfold transportCalls in *. simpl. destruct e; simpl in *; done.
Qed.

(** C6.  A raw URL that [url.Parse] rejects: [Send] returns that error,
    having upper-cased the method and written two log lines and nothing
    else; the transport is not called and no client is created. *)
Theorem Send_malformed_url s r w err :
  url_Parse (Url r) = inr err →
  Send s r w =
    (Fail err,
     {| ses := s;
        rq := set_Method (strings_ToUpper (Method r)) r;
        wld := add_event (EvLog [LErr err])
                 (add_event (EvLog [LStr "URL"; LStr (Url r)]) w) |})
  ∧ transportCalls (newEvents (events w) (events (wld (Send s r w).2))) = []
  ∧ net (wld (Send s r w).2) = net w
  ∧ nextClient (wld (Send s r w).2) = nextClient w.
Proof.
  intros Hu.
  assert (Send s r w =
    (Fail err,
     {| ses := s;
        rq := set_Method (strings_ToUpper (Method r)) r;
        wld := add_event (EvLog [LErr err])
                 (add_event (EvLog [LStr "URL"; LStr (Url r)]) w) |})) as ->.
  { unfold Send, Send_body, Send_build, log, emit, modify_rq, modify_wld,
      get_rq, get_ses, get_wld, put_rq, put_ses, put_wld, exit,
      mbind, mret, M_bind, M_ret.
    simpl. rewrite Hu. done. }
  simpl. rewrite <- app_assoc, newEvents_app. done.
Qed.

(** A payload of kind map or struct that [json.Marshal] rejects stops the
    composing stage. *)
Lemma Send_build_marshal_failure st v err :
  (Payload (rq st) = Some (PMap v) ∨ Payload (rq st) = Some (PStruct v)) →
  json_Marshal v = inr err →
  ∃ st1, Send_build st =
           (inr (Fail match url_Parse (Url (rq st)) with
                      | inl _ => err
                      | inr e => e
                      end), st1).
Proof.
  intros Hp Hm.
  unfold Send_build, encodePayload, marshalPayload, log, emit, modify_rq, modify_wld,
    get_rq, get_ses, get_wld, put_rq, put_ses, put_wld, exit,
    mbind, mret, M_bind, M_ret.
  destruct st as [s r w]; simpl in *.
  destruct (url_Parse (Url r)) as [u|e]; simpl; [|by eexists].
  destruct Hp as [-> | ->]; rewrite Hm; simpl; by eexists.
Qed.

(** C7.  A payload of kind map or struct whose JSON serialization fails:
    the transport is not called, the network is not touched, no client is
    created, and [Send] returns the serialization error (when the URL does
    not even parse, the error of the URL, met first). *)
Theorem Send_marshal_failure s r w v err :
  (Payload r = Some (PMap v) ∨ Payload r = Some (PStruct v)) →
  json_Marshal v = inr err →
  transportCalls (newEvents (events w) (events (wld (Send s r w).2))) = []
  ∧ net (wld (Send s r w).2) = net w
  ∧ ses (Send s r w).2 = s
  ∧ (∀ u, url_Parse (Url r) = inl u → (Send s r w).1 = Fail err)
  ∧ (∀ e, url_Parse (Url r) = inr e → (Send s r w).1 = Fail e).
Proof.
  intros Hp Hm.
  destruct (Send_build_marshal_failure (start s r w) v err Hp Hm) as [st1 Hb].
  pose proof (calm_Send_build _ _ _ Hb) as Hc.
  rewrite Send_stages, Hb. simpl.
  split; [exact (calm_no_transportCalls _ _ Hc)|].
  split; [exact (calm_net _ _ Hc)|].
  split; [exact (calm_ses _ _ Hc)|].
  split; intros ? ->; done.
Qed.

End EarlyErrors.

(** ** The response *)
Section ResponseProps.
Context `{C : Collaborators}.

(** C5.  [StatusOk] is true exactly for a status of at most 300: true at
    300, false at 301. *)
Theorem StatusOk_boundary (r : Response) :
  StatusOk r = bool_decide (status r ≤ 300)%Z
  ∧ StatusOk (set_status 300 r) = true
  ∧ StatusOk (set_status 301 r) = false.
Proof.
  unfold StatusOk. split; [|done].
  destruct (Z.leb_spec (status r) 300).
  - by rewrite bool_decide_eq_true_2.
  - rewrite bool_decide_eq_false_2; [done|lia].
Qed.

(** C4.  The transport answered with [resp], the body is captured, read
    without error and not empty: [Send] returns the response descriptor,
    holding the body; with a status of at most 200 and a [Result] the body
    was decoded into [Result], with a status above 200 and an [Error] into
    [Error]; whether decoding failed does not show in what [Send] returns. *)
Theorem Send_decodes_body s r w c req resp :
  EvDo c req (inl resp) ∈ newEvents (events w) (events (wld (Send s r w).2)) →
  NotProcessBody r = false →
  BodyErr resp = None →
  Body resp ≠ [] →
  (Send s r w).1 = Ok (rq (Send s r w).2)
  ∧ body (rq (Send s r w).2) = Body resp
  ∧ heap (wld (Send s r w).2) = decoded r resp (heap w)
  ∧ (∀ v, (StatusCode resp ≤ 200)%Z → Result r = Some v →
       heap (wld (Send s r w).2) = (Unmarshal_into (Body resp) v (heap w)).1)
  ∧ (∀ v, (StatusCode resp > 200)%Z → Error r = Some v →
       heap (wld (Send s r w).2) = (Unmarshal_into (Body resp) v (heap w)).1).
Proof.
  intros Hin Hn He Hb. rewrite Send_stages in *.
  destruct (Send_build (start s r w)) as [[req0|o] st1] eqn:E1.
  2:{ exfalso. simpl in Hin.
      pose proof (calm_Send_build _ _ _ E1) as [_ _ _ (l1 & Hl1 & Hev1)].
      simpl in Hev1. rewrite Hev1, newEvents_app in Hin.
      by apply (proj1 (Forall_forall _ _) Hl1) in Hin. }
  pose proof (calm_Send_build _ _ _ E1) as [Hs1 _ _ (l1 & Hl1 & Hev1)].
  pose proof (sameHeap_Send_build _ _ _ E1) as Hh1.
  pose proof (sameField_Send_build NotProcessBody
                ltac:(done) ltac:(done) ltac:(done) _ _ _ E1) as Hn1.
  pose proof (sameField_Send_build Result
                ltac:(done) ltac:(done) ltac:(done) _ _ _ E1) as Hr1.
  pose proof (sameField_Send_build Error
                ltac:(done) ltac:(done) ltac:(done) _ _ _ E1) as Hx1.
  unfold sameHeap, sameField in *. simpl in *.
  destruct (Send_dispatch req0 st1) as [[resp0|o] st2] eqn:E2.
  2:{ exfalso. simpl in Hin.
      destruct (Send_dispatch_run _ _ _ _ E2) as (_ & _ & _ & (l2 & Hl2 & Hev2) & Hres & _).
      rewrite Hev2, Hev1, <- app_assoc, newEvents_app in Hin.
      destruct (client_Do _ _ _).1 as [?|err] eqn:Ea; [done|].
      apply elem_of_app in Hin as [Hin|Hin].
      - by apply (proj1 (Forall_forall _ _) Hl1) in Hin.
      - apply elem_of_cons in Hin as [Hin|Hin]; [done|].
        by apply (proj1 (Forall_forall _ _) Hl2) in Hin. }
  destruct (Send_dispatch_run _ _ _ _ E2)
    as (_ & _ & Hh2 & (l2 & Hl2 & Hev2) & Hres & Hrq2).
  destruct (client_Do _ _ _).1 as [resp1|err] eqn:Ea; [|done].
  injection Hres as ->.
  assert (NotProcessBody (rq st2) = false) as Hn2 by (by rewrite Hrq2; simpl; congruence).
  assert (resp = resp1) as ->.
  { destruct (processBody resp1 st2) as [res3 st3] eqn:E3.
    pose proof (calm_processBody _ _ _ _ E3) as [_ _ _ (l3 & Hl3 & Hev3)].
    assert (events (wld (match res3 with
                         | inl _ => (Ok (rq st3), st3)
                         | inr o => (o, st3)
                         end).2) = events (wld st3)) as Hsame
      by (by destruct res3).
    rewrite Hsame, Hev3, Hev2, Hev1, <- !app_assoc, newEvents_app in Hin.
    apply elem_of_app in Hin as [Hin|Hin].
    - by apply (proj1 (Forall_forall _ _) Hl1) in Hin.
    - simpl in Hin. apply elem_of_cons in Hin as [Hin|Hin]; [congruence|].
      apply elem_of_app in Hin as [Hin|Hin].
      + by apply (proj1 (Forall_forall _ _) Hl2) in Hin.
      + by apply (proj1 (Forall_forall _ _) Hl3) in Hin. }
  destruct (processBody_decodes resp1 st2 Hn2 He Hb) as (st3 & -> & Hbody & Hheap).
  simpl.
  assert (decoded (rq st2) resp1 (heap (wld st2)) = decoded r resp1 (heap w)) as Hdec.
  { unfold decoded. rewrite Hrq2, Hh2, Hh1. simpl. by rewrite Hr1, Hx1. }
  rewrite Hdec in Hheap.
  split; [done|]. split; [done|]. split; [done|].
  split.
  - intros v Hle Hv. rewrite Hheap. unfold decoded. rewrite Hv.
    rewrite (proj2 (Z.leb_le _ _) Hle).
    destruct (Error r); [|done].
    by assert ((StatusCode resp1 >? 200)%Z = false) as -> by lia.
  - intros v Hgt Hv. rewrite Hheap. unfold decoded. rewrite Hv.
    assert ((StatusCode resp1 >? 200)%Z = true) as -> by lia.
    destruct (Result r); [|done].
    by assert ((StatusCode resp1 <=? 200)%Z = false) as -> by lia.
Qed.

End ResponseProps.

(** ** The composed request *)
Section Composed.
Context `{C : Collaborators}.

Lemma bind_inv {A B} (m : M A) (f : A → M B) st res st' :
  (m ≫= f) st = (res, st') →
  (∃ a st1, m st = (inl a, st1) ∧ f a st1 = (res, st'))
  ∨ (∃ o, m st = (inr o, st') ∧ res = inr o).
Proof.
  unfold mbind, M_bind. destruct (m st) as [[a|o] st1].
  - intros H. left. eauto.
  - intros [= <- <-]. right. eauto.
Qed.

Lemma bind_modify_rq {B} f (k : unit → M B) st :
  (modify_rq f ≫= k) st = k tt {| ses := ses st; rq := f (rq st); wld := wld st |}.
Proof. done. Qed.

Lemma bind_get_rq {B} (k : Request → M B) st : (get_rq ≫= k) st = k (rq st) st.
Proof. done. Qed.

Lemma bind_get_ses {B} (k : Session → M B) st : (get_ses ≫= k) st = k (ses st) st.
Proof. done. Qed.

Lemma bind_get_wld {B} (k : World → M B) st : (get_wld ≫= k) st = k (wld st) st.
Proof. done. Qed.

(** What [encodePayload] hands on: no body and the header as it was, or a
    buffer of at least one byte and the header with the JSON content type
    set when the bytes are bracketed. *)
Lemma encodePayload_run h st bs h1 st' :
  encodePayload h st = (inl (bs, h1), st') →
  (bs = None ∧ h1 = h)
  ∨ (∃ b, bs = Some (FromBuffer b) ∧ b ≠ []
          ∧ h1 = if jsonBrackets b
                 then Header_Set h "Content-Type" "application/json" else h).
Proof.
  assert (∀ (b : list Byte.byte) st0,
    (if bool_decide (length b ≠ 0%nat)
     then if jsonBrackets b
          then mret (M:=M) (Some (FromBuffer b), Header_Set h "Content-Type" "application/json")
          else mret (Some (FromBuffer b), h)
     else mret (None, h)) st0 = (inl (bs, h1), st') →
    (bs = None ∧ h1 = h)
    ∨ (∃ b, bs = Some (FromBuffer b) ∧ b ≠ []
          ∧ h1 = if jsonBrackets b
                 then Header_Set h "Content-Type" "application/json" else h)) as Htail.
  { intros b st0. destruct (bool_decide (length b ≠ 0%nat)) eqn:Eb.
    - assert (b ≠ []) by (apply bool_decide_eq_true in Eb; by destruct b).
      destruct (jsonBrackets b) eqn:Ej; intros [= <- <- <-]; right; exists b;
        rewrite Ej; eauto.
    - intros [= <- <- <-]. by left. }
  unfold encodePayload, marshalPayload, modify_rq, get_rq, put_rq, exit,
    mbind, M_bind.
  destruct st as [s r w]; simpl.
  destruct (Payload r) as [pl|]; [|intros [= <- <- <-]; by left].
  destruct pl as [rd|v|v|str|v|b|v|v|v]; simpl;
    try (intros [= <- <- <-]; by left);
    try (destruct (json_Marshal v) as [b|e]; simpl);
    try done; try apply Htail.
  all: try (intros [= <- <- <-]; by left).
Qed.

Lemma sameField_encodePayload {X} (get : Request → X) h :
  (∀ x r, get (set_Payload x r) = get r) →
  respects (sameField get) (encodePayload h).
Proof.
  intros H1. unfold encodePayload, marshalPayload.
  repeat first
    [ apply sameField_modify_rq; intros ?; simpl; solve [auto] | respects_step ].
Qed.

Lemma requestHeader_run h rH st res st' :
  requestHeader h rH st = (res, st') →
  st' = st
  ∧ ∀ h2, res = inl h2 →
      match rH with
      | None => h2 = h
      | Some m => setFirstValues (mapRange m) h = Some h2
      end.
Proof.
  unfold requestHeader. destruct rH as [m|].
  - destruct (setFirstValues (mapRange m) h) as [h2|];
      intros [= <- <-]; (split; [done|]); by intros ? [= <-].
  - intros [= <- <-]. split; [done|]. by intros ? [= <-].
Qed.

Lemma authenticate_run u ui req st res st' :
  authenticate u ui req st = (res, st') →
  rq st' = rq st
  ∧ res = inl match ui with
              | None => req
              | Some ui => SetBasicAuth req (username ui) (password ui)
              end.
Proof.
  unfold authenticate. destruct ui as [ui|]; [|by intros [= <- <-]].
  destruct (bool_decide (Scheme u ≠ "https")); by intros [= <- <-].
Qed.

(** The composing stage, once the URL has parsed: the merged parameters
    are stored on the descriptor whatever happens next, and a request that
    comes out carries them in its URL. *)
Lemma Send_build_parsed st u res st1 :
  url_Parse (Url (rq st)) = inl u →
  Send_build st = (res, st1) →
  let merged := mergeParams (s_Params (ses st)) (URL_Query u) (Params (rq st)) in
  Params (rq st1) = Some merged
  ∧ ∀ req, res = inl req →
      req_URL req = URL_String (set_RawQuery (Values_Encode merged) u)
      ∧ req_Method req = strings_ToUpper (Method (rq st))
      ∧ ∃ h1 stA stB,
          encodePayload (sessionHeader (s_Header (ses st))) stA
            = (inl (req_Body req, h1), stB)
          ∧ Payload (rq stA) = Payload (rq st)
          ∧ finalHeader h1 (Header (rq st)) (chooseUserinfo u (ses st) (rq st))
              (req_Header req).
Proof.
  intros Hu Hrun merged. destruct st as [s r w]. simpl in *.
  unfold Send_build in Hrun.
  rewrite bind_modify_rq, bind_get_rq in Hrun. simpl in Hrun. rewrite Hu in Hrun.
  rewrite bind_get_ses, bind_modify_rq in Hrun. simpl in Hrun. fold merged in Hrun.
  apply bind_inv in Hrun as [([bs h1] & stB & Ee & Hrun) | (o & Ee & ->)].
  2:{ pose proof (sameField_encodePayload Params _ ltac:(done) _ _ _ Ee) as HP.
      split; [exact HP|]. by intros req. }
  pose proof (sameField_encodePayload Params _ ltac:(done) _ _ _ Ee) as HP.
  pose proof (sameField_encodePayload Method _ ltac:(done) _ _ _ Ee) as HM.
  pose proof (sameField_encodePayload Header _ ltac:(done) _ _ _ Ee) as HH.
  pose proof (sameField_encodePayload Userinfo _ ltac:(done) _ _ _ Ee) as HU.
  unfold sameField in *. simpl in *.
  rewrite bind_get_rq in Hrun.
  destruct (http_NewRequest_err _ _) as [err|] eqn:En.
  { injection Hrun as <- <-. split; [done|]. by intros req. }
  apply bind_inv in Hrun as [(h2 & stC & Er & Hrun) | (o & Er & ->)].
  2:{ apply requestHeader_run in Er as [-> _]. split; [done|]. by intros req. }
  apply requestHeader_run in Er as [-> Hh2]. specialize (Hh2 h2 eq_refl).
  apply authenticate_run in Hrun as [Hrq ->].
  split; [congruence|]. intros req [= <-].
  assert (chooseUserinfo (set_RawQuery (Values_Encode merged) u) s (rq stB)
          = chooseUserinfo u s r) as ->
    by (unfold chooseUserinfo; simpl; by rewrite HU).
  rewrite HH in Hh2.
  destruct (chooseUserinfo u s r) as [ui|] eqn:Eu; simpl;
    (split; [done|]); (split; [done|]);
    eexists h1, _, stB; (split; [exact Ee|]); (split; [done|]);
    exists h2; done.
Qed.

Lemma Send_build_ok_parsed st req st1 :
  Send_build st = (inl req, st1) → ∃ u, url_Parse (Url (rq st)) = inl u.
Proof.
  intros Hrun. destruct st as [s r w]. unfold Send_build in Hrun.
  rewrite bind_modify_rq, bind_get_rq in Hrun. simpl in *.
  destruct (url_Parse (Url r)) as [u|e]; [by exists u|done].
Qed.

(** The call of the transport a [Send] makes is made with the request the
    composing stage returned. *)
Lemma Send_transport_call s r w c req ans :
  EvDo c req ans ∈ newEvents (events w) (events (wld (Send s r w).2)) →
  ∃ st1, Send_build (start s r w) = (inl req, st1)
         ∧ c = clientOf s (rq st1) (wld st1).
Proof.
  intros Hin. rewrite Send_stages in Hin.
  destruct (Send_build (start s r w)) as [[req0|o] st1] eqn:E1.
  2:{ exfalso. simpl in Hin.
      pose proof (calm_Send_build _ _ _ E1) as [_ _ _ (l1 & Hl1 & Hev1)].
      simpl in Hev1. rewrite Hev1, newEvents_app in Hin.
      by apply (proj1 (Forall_forall _ _) Hl1) in Hin. }
  pose proof (calm_Send_build _ _ _ E1) as [Hs1 _ _ (l1 & Hl1 & Hev1)].
  simpl in Hs1, Hev1.
  destruct (Send_dispatch req0 st1) as [res2 st2] eqn:E2.
  destruct (Send_dispatch_run _ _ _ _ E2) as (_ & _ & _ & (l2 & Hl2 & Hev2) & _ & _).
  assert (∃ l3, Forall notDo l3 ∧
            events (wld (match res2 with
                         | inl resp =>
                             match processBody resp st2 with
                             | (inl _, st3) => (Ok (rq st3), st3)
                             | (inr o, st3) => (o, st3)
                             end
                         | inr o => (o, st2)
                         end).2) = events (wld st2) ++ l3) as (l3 & Hl3 & Hev3).
  { destruct res2 as [resp|o]; simpl.
    - destruct (processBody resp st2) as [res3 st3] eqn:E3.
      pose proof (calm_processBody _ _ _ _ E3) as [_ _ _ (l3 & Hl3 & Hev3)].
      exists l3. split; [done|]. by destruct res3.
    - exists []. split; [constructor|by rewrite app_nil_r]. }
  rewrite Hev3, Hev2, Hev1, <- !app_assoc, newEvents_app in Hin.
  apply elem_of_app in Hin as [Hin|Hin].
  { by apply (proj1 (Forall_forall _ _) Hl1) in Hin. }
  simpl in Hin. apply elem_of_cons in Hin as [Hin|Hin].
  2:{ apply elem_of_app in Hin as [Hin|Hin].
      - by apply (proj1 (Forall_forall _ _) Hl2) in Hin.
      - by apply (proj1 (Forall_forall _ _) Hl3) in Hin. }
  injection Hin as -> -> ->. exists st1. by rewrite Hs1.
Qed.


(** *** The body *)

(** A payload that is a stream: the branch that recognises it leaves
    [paylodReader] nil, so whatever request reaches the transport has no
    body. *)
Lemma Send_reader_body_nil s r w rd c req ans :
  Payload r = Some (PReader rd) →
  EvDo c req ans ∈ newEvents (events w) (events (wld (Send s r w).2)) →
  req_Body req = None.
Proof.
  intros Hp Hin.
  apply Send_transport_call in Hin as (st1 & E1 & _).
  destruct (Send_build_ok_parsed _ _ _ E1) as [u Hu].
  destruct (Send_build_parsed (start s r w) u _ _ Hu E1) as [_ Hreq].
  destruct (Hreq req eq_refl) as (_ & _ & h1 & stA & stB & Ee & HpA & _).
  simpl in HpA. rewrite Hp in HpA.
  unfold encodePayload in Ee. rewrite bind_get_rq, HpA in Ee.
  by injection Ee as <- _ _.
Qed.

(** *** Query parameters *)

Lemma precedence_union (hi mid lo : url_Values) : precedence hi mid lo (hi ∪ (mid ∪ lo)).
Proof.
  intros k. rewrite !lookup_union.
  by destruct (hi !! k), (mid !! k), (lo !! k).
Qed.

(** C1, as amended.  Once the URL has parsed, the parameters stored back
    on the descriptor, and encoded into the URL of the request handed to
    the transport, take each key from the request's own parameters, else
    from the query string of the URL, else from the session's defaults. *)
Theorem Send_params_precedence s r w u :
  url_Parse (Url r) = inl u →
  let merged := default ∅ (Params r) ∪ (URL_Query u ∪ default ∅ (s_Params s)) in
  Params (rq (Send s r w).2) = Some merged
  ∧ (∀ c req ans,
       EvDo c req ans ∈ newEvents (events w) (events (wld (Send s r w).2)) →
       req_URL req = URL_String (set_RawQuery (Values_Encode merged) u))
  ∧ precedence (default ∅ (Params r)) (URL_Query u) (default ∅ (s_Params s)) merged.
Proof.
  intros Hu merged. split; [|split; [|apply precedence_union]].
  - rewrite Send_stages.
    destruct (Send_build (start s r w)) as [res1 st1] eqn:E1.
    destruct (Send_build_parsed (start s r w) u _ _ Hu E1) as [HP _].
    simpl in HP. rewrite mergeParams_union in HP. fold merged in HP.
    destruct res1 as [req|o]; [|done].
    destruct (Send_dispatch req st1) as [res2 st2] eqn:E2.
    pose proof (sameField_Send_dispatch Params req
                  ltac:(done) ltac:(done) ltac:(done) _ _ _ E2) as HP2.
    unfold sameField in HP2.
    destruct res2 as [resp|o]; [|simpl; congruence].
    destruct (processBody resp st2) as [res3 st3] eqn:E3.
    pose proof (sameField_processBody Params resp ltac:(done) _ _ _ E3) as HP3.
    unfold sameField in HP3.
    destruct res3; simpl; congruence.
  - intros c req ans Hin.
    apply Send_transport_call in Hin as (st1 & E1 & _).
    destruct (Send_build_parsed (start s r w) u _ _ Hu E1) as [_ Hreq].
    destruct (Hreq req eq_refl) as (Hurl & _). simpl in Hurl.
    by rewrite mergeParams_union in Hurl.
Qed.

(** *** The Content-Type header *)

Lemma setFirstValues_lookup kvs (h h' : http_Header) K :
  setFirstValues kvs h = Some h' →
  (Forall (λ kv, textproto.CanonicalMIMEHeaderKey kv.1 ≠ K) kvs → h' !! K = h !! K)
  ∧ (Exists (λ kv, textproto.CanonicalMIMEHeaderKey kv.1 = K) kvs →
     ∃ k v0 vs, (k, v0 :: vs) ∈ kvs ∧ textproto.CanonicalMIMEHeaderKey k = K
                ∧ h' !! K = Some [v0]).
Proof.
  revert h. induction kvs as [|[k v] kvs IH]; intros h Hs; simpl in Hs.
  - injection Hs as <-. split; [done|]. by intros ?%Exists_nil.
  - destruct v as [|v0 vs]; [done|].
    destruct (IH _ Hs) as [IH1 IH2]. split.
    + intros [Hk Hall]%Forall_cons. simpl in Hk. rewrite IH1 by done.
      unfold Header_Set. by rewrite lookup_insert_ne.
    + intros Hex.
      destruct (decide (Exists (λ kv, textproto.CanonicalMIMEHeaderKey kv.1 = K) kvs))
        as [Hy|Hn].
      * destruct (IH2 Hy) as (k' & v0' & vs' & Hin & Hk' & Hl).
        exists k', v0', vs'. split; [by right|done].
      * apply Exists_cons in Hex as [Hk|?]; [|done]. simpl in Hk.
        exists k, v0, vs. split; [by left|]. split; [done|].
        rewrite IH1 by (by apply not_Exists_Forall; [intros ?; apply _|]).
        unfold Header_Set. rewrite Hk. by rewrite lookup_insert_eq.
Qed.

(** Neither the default [Accept] nor the [Authorization] of basic
    authentication touches the content type. *)
Lemma defaultAccept_content_type (h : http_Header) :
  defaultAccept h !! "Content-Type" = h !! "Content-Type".
Proof.
  unfold defaultAccept, Header_Add. case_bool_decide; [|done].
  change (textproto.CanonicalMIMEHeaderKey "Accept") with "Accept".
  by rewrite lookup_insert_ne.
Qed.

Lemma finalHeader_content_type h1 rH ui h :
  finalHeader h1 rH ui h →
  ∃ h2, match rH with
        | None => h2 = h1
        | Some m => setFirstValues (mapRange m) h1 = Some h2
        end ∧ h !! "Content-Type" = h2 !! "Content-Type".
Proof.
  intros (h2 & H2 & ->). exists h2. split; [done|].
  destruct ui as [ui|]; [|apply defaultAccept_content_type].
  unfold Header_Set.
  change (textproto.CanonicalMIMEHeaderKey "Authorization") with "Authorization".
  rewrite lookup_insert_ne by done. apply defaultAccept_content_type.
Qed.

(** C3, as amended.  The request handed to the transport has a body of
    bytes bracketed as JSON: its Content-Type is [application/json],
    whatever the session's default header says, unless the request's own
    header supplies a Content-Type, whose first value is then sent. *)
Theorem Send_json_content_type s r w c req ans b :
  EvDo c req ans ∈ newEvents (events w) (events (wld (Send s r w).2)) →
  req_Body req = Some (FromBuffer b) →
  jsonBrackets b = true →
  (¬ suppliesContentType (Header r) →
     req_Header req !! "Content-Type" = Some ["application/json"])
  ∧ (suppliesContentType (Header r) →
     ∃ m k v0 vs, Header r = Some m ∧ m !! k = Some (v0 :: vs)
                  ∧ textproto.CanonicalMIMEHeaderKey k = "Content-Type"
                  ∧ req_Header req !! "Content-Type" = Some [v0]).
Proof.
  intros Hin Hbody Hj.
  apply Send_transport_call in Hin as (st1 & E1 & _).
  destruct (Send_build_ok_parsed _ _ _ E1) as [u Hu].
  destruct (Send_build_parsed (start s r w) u _ _ Hu E1) as [_ Hreq].
  destruct (Hreq req eq_refl) as (_ & _ & h1 & stA & stB & Ee & _ & Hfin).
  simpl in Hfin.
  apply encodePayload_run in Ee as [[Hnone _] | (b' & Hb' & _ & ->)];
    [congruence|].
  assert (b' = b) as -> by congruence. rewrite Hj in Hfin.
  apply finalHeader_content_type in Hfin as (h2 & Hh2 & ->).
  assert (Header_Set (sessionHeader (s_Header s)) "Content-Type" "application/json"
            !! "Content-Type" = Some ["application/json"]) as Hset.
  { unfold Header_Set.
    change (textproto.CanonicalMIMEHeaderKey "Content-Type") with "Content-Type".
    by rewrite lookup_insert_eq. }
  split.
  - intros Hno. destruct (Header r) as [m|] eqn:EH; [|by subst h2].
    destruct (setFirstValues_lookup _ _ _ "Content-Type" Hh2) as [Hkeep _].
    rewrite Hkeep; [done|].
    apply Forall_forall. intros [k v] Hkv Hk. simpl in Hk. apply Hno.
    exists m, k. split; [done|]. split; [|done].
    exists v. apply elem_of_map_to_list. by rewrite <- (mapRange_perm m).
  - intros (m & k & Hm & [v Hv] & Hk). rewrite Hm in Hh2.
    destruct (setFirstValues_lookup _ _ _ "Content-Type" Hh2) as [_ Hover].
    destruct Hover as (k' & v0 & vs & Hin & Hk' & Hl).
    { apply Exists_exists. exists (k, v). split; [|done].
      rewrite (mapRange_perm m). by apply elem_of_map_to_list. }
    exists m, k', v0, vs. split; [done|]. split; [|done].
    apply elem_of_map_to_list. by rewrite <- (mapRange_perm m).
Qed.

End Composed.

(** ** The session's client *)
Section ClientReuse.
Context `{C : Collaborators}.

(** A call either gives up while composing the request, or dispatches the
    composed request and is calm from then on. *)
Lemma Send_shape s r w :
  (∃ o st1, Send_build (start s r w) = (inr o, st1) ∧ Send s r w = (o, st1))
  ∨ (∃ req st1 res2 st2,
       Send_build (start s r w) = (inl req, st1)
       ∧ Send_dispatch req st1 = (res2, st2)
       ∧ calm st2 (Send s r w).2).
Proof.
  rewrite Send_stages.
  destruct (Send_build (start s r w)) as [[req|o] st1] eqn:E1; [right|left; eauto].
  destruct (Send_dispatch req st1) as [res2 st2] eqn:E2.
  exists req, st1, res2, st2. split; [done|]. split; [done|].
  destruct res2 as [resp|o]; [|reflexivity].
  destruct (processBody resp st2) as [res3 st3] eqn:E3.
  pose proof (calm_processBody _ _ _ _ E3). by destruct res3.
Qed.

Lemma notDo_not_elem (l : list Event) c q a : Forall notDo l → EvDo c q a ∉ l.
Proof. intros Hl Hin. by apply (proj1 (Forall_forall _ _) Hl) in Hin. Qed.

(** One call, seen from the session's client: a client that is set stays,
    is the one the transport is called with, and no client is allocated;
    with no client set, either nothing happens to the session and the
    transport is not called, or one client is allocated, with the
    request's [Transport], kept, and called. *)
Lemma Send_client_step s r w :
  ∃ new, events (wld (Send s r w).2) = events w ++ new ∧
    match Client s with
    | Some c =>
        ses (Send s r w).2 = s
        ∧ nextClient (wld (Send s r w).2) = nextClient w
        ∧ ∀ c' q a, EvDo c' q a ∈ new → c' = c
    | None =>
        (ses (Send s r w).2 = s
         ∧ nextClient (wld (Send s r w).2) = nextClient w
         ∧ ∀ c' q a, EvDo c' q a ∉ new)
        ∨ (let c := {| client_addr := nextClient w; client_Transport := Transport r |} in
           ses (Send s r w).2 = set_Client (Some c) s
           ∧ nextClient (wld (Send s r w).2) = S (nextClient w)
           ∧ ∀ c' q a, EvDo c' q a ∈ new → c' = c)
    end.
Proof.
  destruct (Send_shape s r w) as [(o & st1 & E1 & ->) | (req & st1 & res2 & st2 & E1 & E2 & Hc)].
  - destruct (calm_Send_build _ _ _ E1) as [Hs _ Hn (l1 & Hl1 & Hev)]. simpl in *.
    exists l1. split; [done|].
    destruct (Client s); [|left]; repeat split; try done;
      intros c' q a Hin; by apply notDo_not_elem in Hin.
  - destruct (calm_Send_build _ _ _ E1) as [Hs1 _ Hn1 (l1 & Hl1 & Hev1)].
    pose proof (sameField_Send_build Transport
                  ltac:(done) ltac:(done) ltac:(done) _ _ _ E1) as Ht1.
    unfold sameField in Ht1. simpl in *.
    destruct (Send_dispatch_run _ _ _ _ E2) as (Hs2 & Hn2 & _ & (l2 & Hl2 & Hev2) & _ & _).
    destruct Hc as [Hs3 _ Hn3 (l3 & Hl3 & Hev3)].
    exists (l1 ++ EvDo (clientOf (ses st1) (rq st1) (wld st1)) req
                    (client_Do (clientOf (ses st1) (rq st1) (wld st1)) req
                       (net (wld st1))).1 :: l2 ++ l3).
    split.
    { rewrite Hev3, Hev2, Hev1, <- !app_assoc. done. }
    assert (∀ c' q a,
      EvDo c' q a ∈ l1 ++ EvDo (clientOf (ses st1) (rq st1) (wld st1)) req
                    (client_Do (clientOf (ses st1) (rq st1) (wld st1)) req
                       (net (wld st1))).1 :: l2 ++ l3 →
      c' = clientOf (ses st1) (rq st1) (wld st1)) as Hcalls.
    { intros c' q a [Hin|Hin]%elem_of_app; [by apply notDo_not_elem in Hin|].
      apply elem_of_cons in Hin as [Hin|Hin]; [congruence|].
      apply elem_of_app in Hin as [Hin|Hin]; by apply notDo_not_elem in Hin. }
    unfold clientOf in *. rewrite Hs1 in *.
    destruct (Client s) as [c|] eqn:Ec.
    + repeat split; [congruence|congruence|done].
    + right. rewrite Ht1, Hn1 in *. repeat split; [congruence|congruence|done].
Qed.

(** C9.  Through any run of calls on one session: at most one client is
    allocated; a client that is set when the run starts is still the
    session's client when it ends, and none is allocated; and every call
    of the transport in the run was made with the client the session holds
    at the end. *)
Theorem Session_client_created_once s rs w :
  ∃ new, events (SendAll s rs w).2 = events w ++ new
    ∧ (nextClient w ≤ nextClient (SendAll s rs w).2
       ∧ nextClient (SendAll s rs w).2 ≤ nextClient w + 1)%nat
    ∧ (∀ c, Client s = Some c →
         (SendAll s rs w).1.2 = s ∧ nextClient (SendAll s rs w).2 = nextClient w)
    ∧ (Client (SendAll s rs w).1.2 = None →
         nextClient (SendAll s rs w).2 = nextClient w)
    ∧ (∀ c q a, EvDo c q a ∈ new → Client (SendAll s rs w).1.2 = Some c).
Proof.
  revert s w. induction rs as [|r rs IH]; intros s w.
  - exists []. simpl. rewrite app_nil_r. repeat split; try done; try lia.
    intros c q a Hin. by apply elem_of_nil in Hin.
  - simpl. destruct (Send s r w) as [o st] eqn:ES.
    destruct (IH (ses st) (wld st)) as (new2 & Hev2 & Hn2 & Hkeep2 & Hnone2 & Hdo2).
    destruct (SendAll (ses st) rs (wld st)) as [[os s'] w'] eqn:EA. simpl in *.
    destruct (Send_client_step s r w) as (new1 & Hev1 & Hstep).
    rewrite ES in Hev1, Hstep. simpl in *.
    exists (new1 ++ new2). split; [by rewrite Hev2, Hev1, app_assoc|].
    destruct (Client s) as [c|] eqn:Ec.
    + destruct Hstep as (Hs & Hn & Hdo1). rewrite Hs in *.
      destruct (Hkeep2 c Ec) as [-> Hn']. rewrite Hn' in *.
      repeat split; try lia; try congruence.
      intros c' q a [Hin|Hin]%elem_of_app; [|by eauto].
      apply Hdo1 in Hin as ->. done.
    + destruct Hstep as [(Hs & Hn & Hdo1) | (Hs & Hn & Hdo1)].
      * rewrite Hs, Hn in *. repeat split; try lia; try done.
        intros c' q a [Hin|Hin]%elem_of_app; [by apply Hdo1 in Hin|by eauto].
      * destruct (Hkeep2 _ ltac:(by rewrite Hs)) as [Hs' Hn'].
        rewrite Hn', Hn in *. repeat split; try lia; try done.
        -- subst s'. by rewrite Hs.
        -- intros c' q a [Hin|Hin]%elem_of_app; [|by eauto].
           apply Hdo1 in Hin as ->. subst s'. by rewrite Hs.
Qed.

End ClientReuse.

(** ** The request's [Transport] *)
Section TransportIndependence.
Context `{C : Collaborators}.
Variable t : option http_Transport.

Lemma agree_ret {A} (R : A → A → Prop) a1 a2 : R a1 a2 → agree t R (mret a1) (mret a2).
Proof. by intros HR st Hc. Qed.

Lemma agree_exit {A} (R : A → A → Prop) o :
  onResponse (set_Transport t) o = o → agree t R (exit o) (exit o).
Proof. by intros Ho st Hc. Qed.

Lemma agree_bind {A B} (RA : A → A → Prop) (RB : B → B → Prop)
    (m1 m2 : M A) (f1 f2 : A → M B) :
  agree t RA m1 m2 → (∀ a1 a2, RA a1 a2 → agree t RB (f1 a1) (f2 a2)) →
  agree t RB (m1 ≫= f1) (m2 ≫= f2).
Proof.
  intros Hm Hf st Hc. destruct (Hm st Hc) as (Hc1 & Hst & Hres).
  unfold mbind, M_bind.
  destruct (m1 st) as [[a1|o1] st1], (m2 (withTransport t st)) as [[a2|o2] st2];
    simpl in *; try done.
  subst st2. exact (Hf a1 a2 Hres st1 Hc1).
Qed.

Lemma agree_get_rq : agree t (λ r1 r2, r2 = set_Transport t r1) get_rq get_rq.
Proof. by intros st Hc. Qed.

Lemma agree_get_ses : agree t eq get_ses get_ses.
Proof. by intros st Hc. Qed.

Lemma agree_get_wld : agree t eq get_wld get_wld.
Proof. by intros st Hc. Qed.

Lemma agree_modify_rq f1 f2 :
  (∀ r, f2 (set_Transport t r) = set_Transport t (f1 r)) →
  agree t eq (modify_rq f1) (modify_rq f2).
Proof.
  intros Hf st Hc. split; [done|]. split; [|done].
  unfold withTransport. simpl. by rewrite Hf.
Qed.

Lemma agree_modify_wld f : agree t eq (modify_wld f) (modify_wld f).
Proof. by intros st Hc. Qed.

Lemma agree_put_wld w : agree t eq (put_wld w) (put_wld w).
Proof. by intros st Hc. Qed.

Lemma agree_chooseClient : agree t eq chooseClient chooseClient.
Proof.
  intros st [c Hc]. unfold chooseClient, get_ses, mbind, M_bind. simpl.
  rewrite Hc. simpl. rewrite Hc. eauto.
Qed.

End TransportIndependence.

(** A proof that two runs agree, following the code; [known] closes the
    stages already dealt with. *)
Ltac agree_with known :=
  first
    [ known
    | apply agree_exit; reflexivity
    | apply agree_get_ses
    | apply agree_get_wld
    | apply agree_chooseClient
    | apply agree_modify_rq; intros ?; reflexivity
    | apply agree_modify_wld
    | apply agree_put_wld
    | apply agree_ret; reflexivity
    | match goal with
      | |- agree ?t _ _ _ =>
          first
            [ eapply (agree_bind t (λ r1 r2, r2 = set_Transport t r1));
                [ apply agree_get_rq
                | intros ? ? ->; simpl; agree_with known ]
            | eapply (agree_bind t eq);
                [ agree_with known
                | intros ? ? <-; simpl; agree_with known ] ]
      end
    | case_match; agree_with known ].

Section TransportIgnored.
Context `{C : Collaborators}.
Variable t : option http_Transport.

Local Abbreviation same := (agree t eq).

Lemma agree_encodePayload h : same (encodePayload h) (encodePayload h).
Proof. unfold encodePayload, marshalPayload. agree_with fail. Qed.

Lemma agree_requestHeader h rH : same (requestHeader h rH) (requestHeader h rH).
Proof. unfold requestHeader. agree_with fail. Qed.

Lemma agree_authenticate u ui req : same (authenticate u ui req) (authenticate u ui req).
Proof. unfold authenticate, log, emit. agree_with fail. Qed.

Lemma agree_Send_build : same Send_build Send_build.
Proof.
  unfold Send_build, log, emit.
  agree_with ltac:(first [apply agree_encodePayload | apply agree_requestHeader
                         | apply agree_authenticate]).
Qed.

Lemma agree_Send_dispatch req : same (Send_dispatch req) (Send_dispatch req).
Proof. unfold Send_dispatch, Do, log, emit. agree_with fail. Qed.

Lemma agree_processBody resp : same (processBody resp) (processBody resp).
Proof. unfold processBody, Unmarshal_ignore, log, emit. agree_with fail. Qed.

Lemma agree_Send_body :
  agree t (λ r1 r2, r2 = set_Transport t r1) Send_body Send_body.
Proof.
  unfold Send_body, Send_execute.
  agree_with ltac:(first [apply agree_Send_build | apply agree_Send_dispatch
                          | apply agree_processBody]).
Qed.

(** With a client set on the session, the [Transport] of the descriptor
    shows nowhere but on the descriptor itself. *)
Lemma Send_Transport_ignored s r w :
  is_Some (Client s) →
  Send s (set_Transport t r) w
  = (onResponse (set_Transport t) (Send s r w).1, withTransport t (Send s r w).2).
Proof.
  intros Hc. destruct (agree_Send_body (start s r w) Hc) as (_ & Hst & Hres).
  unfold Send, start in *.
  change (withTransport t {| ses := s; rq := r; wld := w |})
    with {| ses := s; rq := set_Transport t r; wld := w |} in *.
  destruct (Send_body {| ses := s; rq := r; wld := w |}) as [[a1|o1] st1],
    (Send_body {| ses := s; rq := set_Transport t r; wld := w |}) as [[a2|o2] st2];
    simpl in *; subst; try done.
  destruct Hres as [<- ->]. done.
Qed.

End TransportIgnored.

Section TransportClaim.
Context `{C : Collaborators}.

(** C10.  With a client set on the session, a call made with any other
    [Transport] on the descriptor returns and leaves behind exactly the
    same, up to that field of the descriptor; the session is as it was and
    the transport is called with the client it had.  With no client set,
    a call of the transport is made with a client carrying the
    descriptor's [Transport], which the session then holds. *)
Theorem Send_Transport_only_for_new_client s r w :
  match Client s with
  | Some c =>
      (∀ t, Send s (set_Transport t r) w
            = (onResponse (set_Transport t) (Send s r w).1,
               withTransport t (Send s r w).2))
      ∧ ses (Send s r w).2 = s
      ∧ ∀ c' q a,
          EvDo c' q a ∈ newEvents (events w) (events (wld (Send s r w).2)) → c' = c
  | None =>
      ∀ c' q a,
        EvDo c' q a ∈ newEvents (events w) (events (wld (Send s r w).2)) →
        client_Transport c' = Transport r
        ∧ Client (ses (Send s r w).2) = Some c'
  end.
Proof.
  destruct (Send_client_step s r w) as (new & Hev & Hstep).
  rewrite Hev, newEvents_app.
  destruct (Client s) as [c|] eqn:Ec.
  - destruct Hstep as (Hs & _ & Hdo). split; [|done].
    intros t. apply Send_Transport_ignored. by rewrite Ec.
  - intros c' q a Hin. destruct Hstep as [(_ & _ & Hno) | (Hs & _ & Hdo)].
    + by apply Hno in Hin.
    + apply Hdo in Hin as ->. rewrite Hs. done.
Qed.

End TransportClaim.

(** ** [Response.Unmarshal] *)
Section UnmarshalProps.
Context `{C : Collaborators}.

Lemma UnmarshalAll_response r vs h : (UnmarshalAll r vs h).1.1 = r.
Proof.
  revert h. induction vs as [|v vs IH]; intros h; [done|].
  simpl. destruct v as [t|]; simpl.
  - destruct (Unmarshal_into (body r) t h) as [h' e].
    specialize (IH h'). by destruct (UnmarshalAll r vs h') as [[r'' h''] es].
  - specialize (IH h). by destruct (UnmarshalAll r vs h) as [[r'' h''] es].
Qed.

(** Decoding into distinct pointers that all hold [v0]. *)
Lemma UnmarshalAll_pointers r (ls : list nat) (h : gmap nat GoValue) v0 :
  NoDup ls → (∀ l, l ∈ ls → h !! l = Some v0) →
  (UnmarshalAll r (Some ∘ TPtr <$> ls) h).2
    = replicate (length ls) (json_Unmarshal (body r) v0).2
  ∧ (∀ l, l ∈ ls →
       (UnmarshalAll r (Some ∘ TPtr <$> ls) h).1.2 !! l
         = Some (json_Unmarshal (body r) v0).1)
  ∧ (∀ l, l ∉ ls → (UnmarshalAll r (Some ∘ TPtr <$> ls) h).1.2 !! l = h !! l).
Proof.
  revert h. induction ls as [|l0 ls IH]; intros h Hnd Hall.
  - simpl. split; [done|]. split; [|done]. intros l Hl. by apply elem_of_nil in Hl.
  - apply NoDup_cons in Hnd as [Hl0 Hnd].
    rewrite fmap_cons. simpl.
    rewrite (Hall l0) by (by left).
    destruct (json_Unmarshal (body r) v0) as [new e] eqn:Eu. simpl.
    destruct (IH (<[l0 := new]> h) Hnd) as (He & Hin & Hout).
    { intros l Hl. rewrite lookup_insert_ne by (by intros ->). apply Hall. by right. }
    destruct (UnmarshalAll r (Some ∘ TPtr <$> ls) (<[l0:=new]> h)) as [[r'' h''] es].
    simpl in *. split; [by rewrite He|]. split.
    + intros l [->|Hl]%elem_of_cons; [|by apply Hin].
      rewrite Hout by done. by rewrite lookup_insert_eq.
    + intros l Hl. apply not_elem_of_cons in Hl as [Hne Hl].
      rewrite Hout by done. by rewrite lookup_insert_ne.
Qed.

(** One call on a pointer that holds [v0]. *)
Lemma Unmarshal_pointer r l (h : gmap nat GoValue) v0 :
  h !! l = Some v0 →
  Unmarshal r (Some (TPtr l)) h
  = (r, <[l := (json_Unmarshal (body r) v0).1]> h, (json_Unmarshal (body r) v0).2).
Proof.
  intros Hl. unfold Unmarshal, Unmarshal_into. rewrite Hl.
  by destruct (json_Unmarshal (body r) v0).
Qed.

(** C8.  [Unmarshal] called any number of times leaves the response, and
    so its body, as it was; called once on each of any number of distinct
    targets that hold equal values, every call returns the same error and
    every target ends up holding the same decoded value: what
    [json.Unmarshal] makes of the body. *)
Theorem Unmarshal_repeatable r (ls : list nat) (h : gmap nat GoValue) v0 :
  NoDup ls →
  (∀ l, l ∈ ls → h !! l = Some v0) →
  (UnmarshalAll r (Some ∘ TPtr <$> ls) h).1.1 = r
  ∧ body (UnmarshalAll r (Some ∘ TPtr <$> ls) h).1.1 = body r
  ∧ length (UnmarshalAll r (Some ∘ TPtr <$> ls) h).2 = length ls
  ∧ (∀ e, e ∈ (UnmarshalAll r (Some ∘ TPtr <$> ls) h).2 →
       e = (json_Unmarshal (body r) v0).2)
  ∧ (∀ l, l ∈ ls →
       (UnmarshalAll r (Some ∘ TPtr <$> ls) h).1.2 !! l
       = Some (json_Unmarshal (body r) v0).1).
Proof.
  intros Hnd Hall.
  destruct (UnmarshalAll_pointers r ls h v0 Hnd Hall) as (He & Hin & _).
  rewrite UnmarshalAll_response. split; [done|]. split; [done|].
  split; [by rewrite He, length_replicate|].
  split; [|done].
  intros e Hel. rewrite He in Hel. by apply elem_of_replicate in Hel as [-> _].
Qed.

End UnmarshalProps.

(** ** The claims on concrete calls *)
Section Concrete.
Import Fixture.
#[local] Existing Instance Fixture.types.
#[local] Existing Instance Fixture.collab.

(** *** Query parameters (C1) *)

(** C1, counterexample.  [a] is in all three layers, [b] in the
    session's defaults and in the URL only: the merged [b] is the URL's,
    not the session's. *)
Lemma params_claim_fails : ¬ params_claim session1 getRequest world0.
Proof.
  intros Hclaim.
  specialize (Hclaim getURL _ eq_refl eq_refl).
  assert (∃ k : string,
    is_Some (default (∅ : url_Values) (Params getRequest) !! k)
    ∧ is_Some (default (∅ : url_Values) (s_Params session1) !! k)
    ∧ is_Some (URL_Query getURL !! k)) as Hk.
  { exists "a". repeat split; vm_compute; eauto. }
  specialize (Hclaim Hk "b"). vm_compute in Hclaim. discriminate Hclaim.
Qed.

Lemma Send_params_precedence_witness :
  url_Parse (Url getRequest) = inl getURL
  ∧ Params (rq (Send session1 getRequest world0).2)
    = Some (default ∅ (Params getRequest)
            ∪ (URL_Query getURL ∪ default ∅ (s_Params session1))).
Proof.
  split; [vm_compute; reflexivity|].
  refine (proj1 (Send_params_precedence session1 getRequest world0 getURL _)).
  vm_compute; reflexivity.
Defined.

Example merged_parameters :
  map_to_list <$> Params (rq (Send session1 getRequest world0).2)
  = Some [("c", ["ses"]); ("a", ["req"]); ("b", ["url"])]
  ∧ req_URL <$> sentBy session1 getRequest
    = ["http://example.com/get?a=req&b=url&c=ses"].
Proof. split; vm_compute; reflexivity. Qed.

(** *** The body of a stream payload (C2) *)

(** C2, at the failing input.  The payload is a stream, the transport is
    called once, and the request it is handed has no body, where the
    claim has the stream. *)
Theorem Send_reader_body_dropped :
  Payload postStream = Some (PReader "stream")
  ∧ req_Body <$> sentBy session0 postStream = [None]
  ∧ req_Body <$> sentBy session0 postStream ≠ [Some (FromReader "stream")].
Proof. split; [|split]; vm_compute; [reflexivity|reflexivity|discriminate]. Qed.

(** *** The Content-Type header (C3) *)

Lemma postText_sent :
  EvDo client0 postTextSent (inl (reply 201 "[201]")) ∈ eventsOf session1 postText.
Proof. vm_compute. left. Qed.

(** C3, counterexample.  The session's default Content-Type is
    [text/plain]; the text [{}] is sent as [application/json]. *)
Lemma contentType_claim_fails : ¬ contentType_claim session1 postText world0.
Proof.
  intros Hclaim.
  specialize (Hclaim client0 postTextSent (inl (reply 201 "[201]"))
                (list_byte_of_string "{}") "text/plain"
                postText_sent eq_refl eq_refl ltac:(done) (or_introl eq_refl)).
  vm_compute in Hclaim. discriminate Hclaim.
Qed.

Lemma Send_json_content_type_witness :
  EvDo client0 postTextSent (inl (reply 201 "[201]")) ∈ eventsOf session1 postText
  ∧ req_Body postTextSent = Some (FromBuffer (list_byte_of_string "{}"))
  ∧ jsonBrackets (list_byte_of_string "{}") = true
  ∧ req_Header postTextSent !! "Content-Type" = Some ["application/json"].
Proof.
  split; [vm_compute; left|]. split; [reflexivity|]. split; [reflexivity|].
  refine (proj1 (Send_json_content_type session1 postText world0 client0 postTextSent
                   (inl (reply 201 "[201]")) (list_byte_of_string "{}") _ _ _) _).
  - vm_compute. left.
  - reflexivity.
  - reflexivity.
  - intros (m & k & Hm & _). discriminate Hm.
Defined.

(** A Content-Type on the request's own header is the one sent. *)
Example request_content_type_sent :
  (λ req, req_Header req !! "Content-Type")
    <$> sentBy session1 (jsonTextAs "text/x-custom")
  = [Some ["text/x-custom"]].
Proof. vm_compute. reflexivity. Qed.

(** *** Decoding the response body (C4) *)

(** Status 404 and an [Error] that is not a pointer: decoding fails, and
    [Send] returns the response all the same. *)
Lemma Send_decodes_body_witness :
  EvDo client0 deleteSent (inl (reply 404 "[404]")) ∈ eventsOf session0 deleteRequest
  ∧ (Unmarshal_into (Body (reply 404 "[404]")) (TNonPtr "target") (heap world0)).2
    = Some InvalidUnmarshalError
  ∧ (Send session0 deleteRequest world0).1
    = Ok (rq (Send session0 deleteRequest world0).2).
Proof.
  split; [vm_compute; left|]. split; [reflexivity|].
  refine (proj1 (Send_decodes_body session0 deleteRequest world0 client0 deleteSent
                   (reply 404 "[404]") _ _ _ _)).
  - vm_compute. left.
  - reflexivity.
  - reflexivity.
  - vm_compute. discriminate.
Defined.

(** Status 200 decodes into [Result], not into [Error]. *)
Example status_200_decodes_into_Result :
  heap (wld (Send session0 getBoth heapOld).2)
  = {[ 1%nat := "[200]"; 2%nat := "old" ]}.
Proof. vm_compute. reflexivity. Qed.

(** *** Errors before the transport (C6, C7) *)

Lemma Send_malformed_url_witness :
  url_Parse (Url badRequest) = inr "parse ://bad: missing protocol scheme"
  ∧ (Send session1 badRequest world0).1 = Fail "parse ://bad: missing protocol scheme"
  ∧ sentBy session1 badRequest = [].
Proof.
  split; [vm_compute; reflexivity|].
  destruct (@Send_malformed_url types collab session1 badRequest world0
              "parse ://bad: missing protocol scheme"
              ltac:(vm_compute; reflexivity)) as (H1 & H2 & _).
  split.
  - rewrite H1. reflexivity.
  - unfold sentBy, eventsOf. rewrite H2. reflexivity.
Defined.

Lemma Send_marshal_failure_witness :
  Payload postChan = Some (PMap "chan")
  ∧ json_Marshal "chan" = inr "json: unsupported type: chan int"
  ∧ (Send session1 postChan world0).1 = Fail "json: unsupported type: chan int"
  ∧ sentBy session1 postChan = [].
Proof.
  split; [reflexivity|]. split; [vm_compute; reflexivity|].
  destruct (@Send_marshal_failure types collab session1 postChan world0 "chan"
              "json: unsupported type: chan int" (or_introl eq_refl)
              ltac:(vm_compute; reflexivity))
    as (H1 & _ & _ & H2 & _).
  split.
  - apply (H2 postURL). vm_compute; reflexivity.
  - unfold sentBy, eventsOf. rewrite H1. reflexivity.
Defined.

(** *** Repeated [Unmarshal] (C8) *)

(** Three targets holding [old], decoded from the response to a GET. *)
Lemma Unmarshal_repeatable_witness :
  NoDup [1%nat; 2%nat; 5%nat]
  ∧ length (UnmarshalAll getResponse (Some ∘ TPtr <$> [1%nat; 2%nat; 5%nat]) heapThree).2
    = 3%nat
  ∧ (UnmarshalAll getResponse (Some ∘ TPtr <$> [1%nat; 2%nat; 5%nat]) heapThree).1.1
    = getResponse.
Proof.
  assert (NoDup [1%nat; 2%nat; 5%nat]) as Hnd
    by (apply (bool_decide_unpack _); vm_compute; reflexivity).
  split; [exact Hnd|].
  destruct (Unmarshal_repeatable getResponse [1%nat; 2%nat; 5%nat] heapThree "old" Hnd)
    as (H1 & _ & H3 & _).
  - intros l Hl. apply list_elem_of_In in Hl. simpl in Hl.
    destruct Hl as [<-|[<-|[<-|[]]]]; reflexivity.
  - split; [exact H3|exact H1].
Defined.

Example Unmarshal_three_times :
  (UnmarshalAll getResponse (Some ∘ TPtr <$> [1%nat; 2%nat; 5%nat]) heapThree).1.2
  = {[ 1%nat := "[200]"; 2%nat := "[200]"; 5%nat := "[200]" ]}.
Proof. vm_compute. reflexivity. Qed.

(** *** The session's client (C9, C10) *)

(** Three calls on a session that starts without a client: the first
    fails on its URL and creates none, the second creates client 0 with
    the descriptor's transport, the third reuses it although its
    descriptor names another transport. *)
Example one_client_for_the_run :
  let run := SendAll session0
               [badRequest;
                set_Transport (Some 7%nat) (request0 "GET" "http://example.com/get");
                set_Transport (Some 9%nat) (request0 "GET" "http://example.com/get")]
               world0 in
  nextClient run.2 = 1%nat
  ∧ Client run.1.2 = Some {| client_addr := 0; client_Transport := Some 7%nat |}
  ∧ (transportCalls (events run.2)).*1
    = [ {| client_addr := 0; client_Transport := Some 7%nat |};
        {| client_addr := 0; client_Transport := Some 7%nat |} ].
Proof. vm_compute. repeat split. Qed.

End Concrete.
